(** * Accessibility-compliance engine: a shallow embedding and its properties

    The development follows the TypeScript sources of the portal:
    - the colour-contrast utilities ([hexToRgb], [getLuminance],
      [getContrastRatio], [meetsWCAGAA]);
    - [validateTouchTarget] of [lib/mobileAccessibility.ts];
    - [focusUtils.trapFocus] of [lib/accessibility.ts];
    - the [useScreenReaderAnnouncement] hook and the [announceShortcut]
      callback of the keyboard-shortcut hook;
    - [handleKeyDown] of the keyboard-shortcut hook;
    - the callers of the contrast evaluator ([getRecommendedTextColor],
      [validateColorCombination]);
    - [auditTouchTargets] and [generateMobileA11yReport];
    - [focusUtils.focusFirstElement] and [focusUtils.restoreFocus];
    - the live regions ([ScreenReaderAnnouncement], [ShortcutAnnouncement],
      [FormAnnouncement]) and the password meter of [PasswordField].

    JavaScript numbers are read as real numbers in the colour mathematics
    (so [Math.pow] is [Rpower]) and as rationals for measured geometry;
    strings are [string]s of 8-bit characters; a thrown [Error] is the
    [Throw] constructor of [result]. *)

From Stdlib Require Import String Ascii List Bool Arith ZArith QArith Lia.
From Stdlib Require Import Qround DecimalString.
From Stdlib Require Import Reals Lra.
Import ListNotations.

Close Scope Q_scope.
Close Scope R_scope.
Local Open Scope string_scope.
Local Open Scope list_scope.
Local Open Scope nat_scope.

(** A JavaScript completion: a returned value or a thrown error. *)
Inductive result (A : Type) : Type :=
| Ok (a : A)
| Throw (e : string).

Arguments Ok {A} a.
Arguments Throw {A} e.

(** [String.prototype.toLowerCase] on the 8-bit characters of the model. *)
Definition lower_char (c : ascii) : ascii :=
  let n := nat_of_ascii c in
  if (65 <=? n)%nat && (n <=? 90)%nat then ascii_of_nat (n + 32) else c.

Fixpoint toLowerCase (s : string) : string :=
  match s with
  | EmptyString => EmptyString
  | String c rest => String (lower_char c) (toLowerCase rest)
  end.

(* ================================================================== *)
(** * Contrast evaluator *)
(* ================================================================== *)

Module Contrast.

Record rgb : Type := { r : Z; g : Z; b : Z }.

Definition code (c : ascii) : Z := Z.of_nat (nat_of_ascii c).

Definition in_range (lo hi c : ascii) : bool :=
  ((code lo <=? code c) && (code c <=? code hi))%Z.

(** The character class [[a-f\d]] under the [i] flag. *)
Definition hex_class (c : ascii) : bool :=
  in_range "a" "f" c || in_range "A" "F" c || in_range "0" "9" c.

(** Value of one digit for [parseInt(_, 16)]; [None] is "not a digit". *)
Definition digit16 (c : ascii) : option Z :=
  if in_range "0" "9" c then Some (code c - 48)%Z
  else if in_range "a" "f" c then Some (code c - 87)%Z
  else if in_range "A" "F" c then Some (code c - 55)%Z
  else None.

(** [parseInt(s, 16)] on the two-character groups the pattern captures
    ([None] stands for [NaN]). *)
Definition parseInt16 (hi lo : ascii) : option Z :=
  match digit16 hi, digit16 lo with
  | Some h, Some l => Some (16 * h + l)%Z
  | _, _ => None
  end.

(** The part [([a-f\d]{2})([a-f\d]{2})([a-f\d]{2})$] of the pattern: exactly
    six characters of the class, up to the end of the input, yielding the
    three captured groups. *)
Definition match_groups (s : string)
  : option ((ascii * ascii) * (ascii * ascii) * (ascii * ascii)) :=
  match s with
  | String c1 (String c2 (String c3 (String c4 (String c5 (String c6 EmptyString))))) =>
      if hex_class c1 && hex_class c2 && hex_class c3
         && hex_class c4 && hex_class c5 && hex_class c6
      then Some ((c1, c2), (c3, c4), (c5, c6))
      else None
  | _ => None
  end.

(** [/^#?(...)(...)(...)$/i.exec(hex)]: the greedy optional [#] is tried
    first, and on failure the match is retried without consuming it. *)
Definition regex_exec (hex : string)
  : option ((ascii * ascii) * (ascii * ascii) * (ascii * ascii)) :=
  match hex with
  | String "#"%char rest =>
      match match_groups rest with
      | Some m => Some m
      | None => match_groups hex
      end
  | _ => match_groups hex
  end.

Definition hexToRgb (hex : string) : option rgb :=
  match regex_exec hex with
  | Some ((r1, r2), (g1, g2), (b1, b2)) =>
      match parseInt16 r1 r2, parseInt16 g1 g2, parseInt16 b1 b2 with
      | Some rv, Some gv, Some bv => Some {| r := rv; g := gv; b := bv |}
      | _, _, _ => None
      end
  | None => None
  end.

Local Open Scope R_scope.

(** The body of the [map] callback of [getLuminance]. *)
Definition linearize (c : R) : R :=
  let c := c / 255 in
  if Rle_dec c 0.03928 then c / 12.92
  else Rpower ((c + 0.055) / 1.055) 2.4.

Definition getLuminance (r g b : R) : R :=
  let rs := linearize r in
  let gs := linearize g in
  let bs := linearize b in
  0.2126 * rs + 0.7152 * gs + 0.0722 * bs.

Definition getContrastRatio (color1 color2 : string) : result R :=
  match hexToRgb color1, hexToRgb color2 with
  | Some rgb1, Some rgb2 =>
      let lum1 := getLuminance (IZR (r rgb1)) (IZR (g rgb1)) (IZR (b rgb1)) in
      let lum2 := getLuminance (IZR (r rgb2)) (IZR (g rgb2)) (IZR (b rgb2)) in
      let brightest := Rmax lum1 lum2 in
      let darkest := Rmin lum1 lum2 in
      Ok ((brightest + 0.05) / (darkest + 0.05))
  | _, _ => Throw "Invalid hex color format"
  end.

Inductive Level : Type := AA | AAA | Fail.

Record ContrastResult : Type :=
  { passes : bool; ratio : R; required : R; level : Level }.

(** [x >= y] on numbers. *)
Definition geb (x y : R) : bool := if Rle_dec y x then true else false.

(** [Math.round]: the nearest integer, halves going up. *)
Definition Math_round (x : R) : R := IZR (Int_part (x + 0.5)).

Definition requiredRatio (isLargeText : bool) : R :=
  if isLargeText then 3 else 4.5.

Definition requiredRatioAAA (isLargeText : bool) : R :=
  if isLargeText then 4.5 else 7.

Definition meetsWCAGAA (foreground background : string) (isLargeText : bool)
  : result ContrastResult :=
  match getContrastRatio foreground background with
  | Throw e => Throw e
  | Ok ratio0 =>
      Ok {| passes := geb ratio0 (requiredRatio isLargeText);
            ratio := Math_round (ratio0 * 100) / 100;
            required := requiredRatio isLargeText;
            level := if geb ratio0 (requiredRatioAAA isLargeText) then AAA
                     else if geb ratio0 (requiredRatio isLargeText) then AA
                     else Fail |}
  end.

(** ** Well-formed colour strings, as the specification words them *)

Definition is_hex_char (c : ascii) : Prop :=
  In c (list_ascii_of_string "0123456789abcdefABCDEF").

(** Six hexadecimal digits, optionally preceded by [#]. *)
Definition well_formed (s : string) : Prop :=
  exists body : string,
    (s = body \/ s = String "#"%char body) /\
    String.length body = 6%nat /\
    Forall is_hex_char (list_ascii_of_string body).

(** Removing the optional leading [#]. *)
Definition strip_hash (s : string) : string :=
  match s with
  | String "#"%char rest => rest
  | _ => s
  end.

(** Two spellings of one colour: equal once the [#] is dropped and the letter
    case is ignored. *)
Definition same_spelling (s t : string) : Prop :=
  toLowerCase (strip_hash s) = toLowerCase (strip_hash t).

(** What [hexToRgb] makes of the captured groups. *)
Definition groups_rgb (m : option ((ascii * ascii) * (ascii * ascii) * (ascii * ascii)))
  : option rgb :=
  match m with
  | Some ((r1, r2), (g1, g2), (b1, b2)) =>
      match parseInt16 r1 r2, parseInt16 g1 g2, parseInt16 b1 b2 with
      | Some rv, Some gv, Some bv => Some {| r := rv; g := gv; b := bv |}
      | _, _, _ => None
      end
  | None => None
  end.

(** A channel is a byte. *)
Definition byte_channels (v : rgb) : Prop :=
  (0 <= r v <= 255 /\ 0 <= g v <= 255 /\ 0 <= b v <= 255)%Z.

End Contrast.

(* ================================================================== *)
(** * Touch-target auditor *)
(* ================================================================== *)

Module TouchTarget.

Local Open Scope Q_scope.

(** [TOUCH_TARGET_SIZE], in pixels. *)
Definition MINIMUM : Z := 44.
Definition RECOMMENDED : Z := 48.
Definition SPACING : Z := 8.

(** The part of a [DOMRect] that is read. *)
Record DOMRect : Type := { width : Q; height : Q }.

(** An element, as far as [getBoundingClientRect] sees it. *)
Record HTMLElement : Type := { getBoundingClientRect : DOMRect }.

Record Validation : Type :=
  { isValid : bool;
    actualSize : DOMRect;
    recommendations : list string }.

(** [x >= y] on numbers. *)
Definition geb (x y : Q) : bool := Qle_bool y x.

(** [Math.round]: the nearest integer, halves going up. *)
Definition Math_round (x : Q) : Z := Qfloor (x + (1 # 2)).

(** An integer inside a template literal (pixel sizes stay far below the
    magnitude at which JavaScript switches to exponent notation). *)
Definition show (z : Z) : string := NilZero.string_of_int (Z.to_int z).

Definition recommendation (axis : string) (current : Q) : string :=
  ("Increase " ++ axis ++ " to at least " ++ show MINIMUM
     ++ "px (current: " ++ show (Math_round current) ++ "px)")%string.

Definition validateTouchTarget (element : HTMLElement) : Validation :=
  let rect := getBoundingClientRect element in
  let recommendations := [] in
  let isWidthValid := geb (width rect) (inject_Z MINIMUM) in
  let isHeightValid := geb (height rect) (inject_Z MINIMUM) in
  let recommendations :=
    if negb isWidthValid
    then (recommendations ++ [recommendation "width" (width rect)])%list
    else recommendations in
  let recommendations :=
    if negb isHeightValid
    then (recommendations ++ [recommendation "height" (height rect)])%list
    else recommendations in
  {| isValid := isWidthValid && isHeightValid;
     actualSize := {| width := width rect; height := height rect |};
     recommendations := recommendations |}.

(** An element measured at [w] by [h] pixels. *)
Definition measuring (w h : Q) : HTMLElement :=
  {| getBoundingClientRect := {| width := w; height := h |} |}.

End TouchTarget.

(* ================================================================== *)
(** * Focus trap *)
(* ================================================================== *)

Module FocusTrap.

(** A descendant of the container: its identity and what the selector reads
    ([tag] is the lower-case local name). *)
Record Node : Type :=
  { id : nat;
    tag : string;
    href : option string;
    tabindex : option string }.

Definition has_attr (a : option string) : bool :=
  match a with Some _ => true | None => false end.

Definition attr_is (a : option string) (v : string) : bool :=
  match a with Some w => String.eqb w v | None => false end.

(** [button, [href], input, select, textarea, [tabindex]:not([tabindex="-1"])] *)
Definition focusableSelector (n : Node) : bool :=
  String.eqb (tag n) "button"
  || has_attr (href n)
  || String.eqb (tag n) "input"
  || String.eqb (tag n) "select"
  || String.eqb (tag n) "textarea"
  || (has_attr (tabindex n) && negb (attr_is (tabindex n) "-1")).

(** A container is given by its descendants in document order. *)
Definition querySelectorAll (sel : Node -> bool) (container : list Node)
  : list nat :=
  map id (filter sel container).

(** [a[i]] on an array: [None] is [undefined]. *)
Definition index (a : list nat) (i : Z) : option nat :=
  if (i <? 0)%Z then None else nth_error a (Z.to_nat i).

Record KeyboardEvent : Type := { key : string; shiftKey : bool }.

(** What the handler can change: the focused element ([None] is [null]) and
    whether the event's default action has been cancelled. *)
Record World : Type :=
  { activeElement : option nat;
    defaultPrevented : bool }.

(** [document.activeElement === e], with [e] an element or [undefined]:
    [null] and [undefined] are not strictly equal. *)
Definition strict_eq (active : option nat) (e : option nat) : bool :=
  match active, e with
  | Some x, Some y => Nat.eqb x y
  | _, _ => false
  end.

Definition preventDefault (w : World) : World :=
  {| activeElement := activeElement w; defaultPrevented := true |}.

(** [e.focus()]: the element becomes the active one; a method call on
    [undefined] throws. *)
Definition focus (e : option nat) (w : World) : result World :=
  match e with
  | Some x => Ok {| activeElement := Some x;
                    defaultPrevented := defaultPrevented w |}
  | None => Throw "TypeError"
  end.

Definition trapFocus (container : list Node) (event : KeyboardEvent) (w : World)
  : result World :=
  if negb (String.eqb (key event) "Tab") then Ok w
  else
    let focusableElements := querySelectorAll focusableSelector container in
    let firstElement := index focusableElements 0 in
    let lastElement :=
      index focusableElements (Z.of_nat (length focusableElements) - 1) in
    if shiftKey event then
      if strict_eq (activeElement w) firstElement
      then focus lastElement (preventDefault w)
      else Ok w
    else
      if strict_eq (activeElement w) lastElement
      then focus firstElement (preventDefault w)
      else Ok w.

(** A Tab key event. *)
Definition tab (shift : bool) : KeyboardEvent :=
  {| key := "Tab"; shiftKey := shift |}.


(** A container without focusable elements. *)
Definition no_controls : list Node :=
  [ {| id := 1; tag := "div"; href := None; tabindex := None |};
    {| id := 2; tag := "p"; href := None; tabindex := Some "-1" |} ].

End FocusTrap.

(* ================================================================== *)
(** * Status announcer *)
(* ================================================================== *)

Module Announcer.

Inductive priority : Type := polite | assertive.

(** The hook's state and its environment.  Time is counted in milliseconds.
    Every pending timer runs the same callback, [() => setAnnouncement('')],
    so a timer is recorded by the time at which it is due.  [writes] lists
    the values passed to [setAnnouncement], latest first; [mutations] counts
    the writes that changed the value of the slot. *)
Record state : Type :=
  { now : nat;
    announcement : string;
    timers : list nat;
    writes : list string;
    mutations : nat }.

Definition init : state :=
  {| now := 0; announcement := ""; timers := []; writes := []; mutations := 0 |}.

Definition setAnnouncement (v : string) (st : state) : state :=
  {| now := now st;
     announcement := v;
     timers := timers st;
     writes := v :: writes st;
     mutations := if String.eqb v (announcement st)
                  then mutations st else S (mutations st) |}.

(** [setTimeout(() => setAnnouncement(''), delay)] *)
Definition setTimeout (delay : nat) (st : state) : state :=
  {| now := now st;
     announcement := announcement st;
     timers := (timers st ++ [now st + delay])%list;
     writes := writes st;
     mutations := mutations st |}.

(** [useScreenReaderAnnouncement]: [announce] and [clearAnnouncement]. *)
Definition announce (message : string) (p : priority) (st : state) : state :=
  let st := setAnnouncement message st in
  let timeout := match p with assertive => 2000 | polite => 1000 end in
  setTimeout timeout st.

Definition clearAnnouncement (st : state) : state := setAnnouncement "" st.

(** [announceShortcut] of the keyboard-shortcut hook. *)
Definition announceShortcut (message : string) (st : state) : state :=
  let st := setAnnouncement message st in
  setTimeout 2000 st.

(** Running the callbacks of [n] timers. *)
Fixpoint fire (n : nat) (st : state) : state :=
  match n with
  | O => st
  | S k => fire k (setAnnouncement "" st)
  end.

Definition due (t : nat) (d : nat) : bool := d <=? t.

(** Letting [ms] milliseconds pass: the timers due by then run. *)
Definition advance (ms : nat) (st : state) : state :=
  let t := now st + ms in
  fire (length (filter (due t) (timers st)))
    {| now := t;
       announcement := announcement st;
       timers := filter (fun d => negb (due t d)) (timers st);
       writes := writes st;
       mutations := mutations st |}.

Inductive call : Type :=
| Announce (message : string) (p : priority)
| Clear
| Wait (ms : nat).

Definition step (st : state) (c : call) : state :=
  match c with
  | Announce m p => announce m p st
  | Clear => clearAnnouncement st
  | Wait ms => advance ms st
  end.

Definition run (cs : list call) (st : state) : state := fold_left step cs st.

(** The delay the specification attaches to an urgency. *)
Definition delay_of (p : priority) : nat :=
  match p with polite => 1000 | assertive => 2000 end.

(** Calls other than [announce]. *)
Definition no_announce (c : call) : Prop :=
  match c with Announce _ _ => False | _ => True end.

(** Mere passing of time. *)
Definition is_wait (c : call) : Prop :=
  match c with Wait _ => True | _ => False end.

(** ** Invariants of a run *)

(** A message that is shown has the timer of its own announcement pending,
    due within 2000 ms. *)
Definition clear_pending (s : state) : Prop :=
  announcement s <> "" ->
  exists d, In d (timers s) /\ d <= now s + 2000.



End Announcer.

(* ================================================================== *)
(** * Keyboard-shortcut dispatcher *)
(* ================================================================== *)

Module Shortcuts.

(** What the action of a binding does, by name. *)
Inductive Action : Type :=
| GoHome | GoRequestForm | GoRequestHistory
| SkipToMain | SubmitForm | ToggleHelp.

(** [KeyboardShortcut]; an optional member left out is [None]. *)
Record KeyboardShortcut : Type :=
  { key : string;
    description : string;
    action : Action;
    ctrlKey : option bool;
    altKey : option bool;
    shiftKey : option bool }.

Record Target : Type :=
  { tagName : string;
    isContentEditable : bool }.

Record KeyboardEvent : Type :=
  { ev_key : string;
    ev_ctrlKey : bool;
    ev_altKey : bool;
    ev_shiftKey : bool;
    target : Target }.

(** The bindings of [useKeyboardShortcuts]. *)
Definition shortcuts : list KeyboardShortcut :=
  [ {| key := "1"; description := "Go to Home page"; action := GoHome;
       ctrlKey := None; altKey := Some true; shiftKey := None |};
    {| key := "2"; description := "Go to Request Form"; action := GoRequestForm;
       ctrlKey := None; altKey := Some true; shiftKey := None |};
    {| key := "3"; description := "Go to Request History";
       action := GoRequestHistory;
       ctrlKey := None; altKey := Some true; shiftKey := None |};
    {| key := "m"; description := "Skip to main content"; action := SkipToMain;
       ctrlKey := None; altKey := Some true; shiftKey := None |};
    {| key := "s"; description := "Submit current form (Ctrl+S)";
       action := SubmitForm;
       ctrlKey := Some true; altKey := None; shiftKey := None |};
    {| key := "/"; description := "Show keyboard shortcuts help";
       action := ToggleHelp;
       ctrlKey := None; altKey := None; shiftKey := None |} ].

(** [!!x] on an optional boolean. *)
Definition truthy (x : option bool) : bool :=
  match x with Some v => v | None => false end.

(** The predicate given to [shortcuts.find]. *)
Definition matchesEvent (event : KeyboardEvent) (shortcut : KeyboardShortcut)
  : bool :=
  String.eqb (toLowerCase (key shortcut)) (toLowerCase (ev_key event))
  && Bool.eqb (truthy (ctrlKey shortcut)) (ev_ctrlKey event)
  && Bool.eqb (truthy (altKey shortcut)) (ev_altKey event)
  && Bool.eqb (truthy (shiftKey shortcut)) (ev_shiftKey event).

(** What a key event leads to: whether [preventDefault] was called and which
    binding had its action run. *)
Record Outcome : Type :=
  { defaultPrevented : bool;
    invoked : option KeyboardShortcut }.

(** The event goes on untouched. *)
Definition passThrough : Outcome :=
  {| defaultPrevented := false; invoked := None |}.

Definition handleKeyDown (isEnabled : bool) (bindings : list KeyboardShortcut)
  (event : KeyboardEvent) : Outcome :=
  if negb isEnabled then passThrough
  else
    let target := target event in
    if String.eqb (tagName target) "INPUT"
       || String.eqb (tagName target) "TEXTAREA"
       || isContentEditable target
    then passThrough
    else
      match find (matchesEvent event) bindings with
      | Some matchingShortcut =>
          {| defaultPrevented := true; invoked := Some matchingShortcut |}
      | None => passThrough
      end.

(** ** The rules, as the specification words them *)










End Shortcuts.

(* ================================================================== *)
(** * Colour advice: the callers of the contrast evaluator *)
(* ================================================================== *)

Module ContrastAdvice.

Import Contrast.

(** Sequencing of calls that may throw. *)
Definition bind {A B : Type} (m : result A) (k : A -> result B) : result B :=
  match m with
  | Ok a => k a
  | Throw e => Throw e
  end.

Notation "x <- m ;; k" := (bind m (fun x => k))
  (at level 61, m at next level, right associativity).

(** [x > y] on numbers. *)
Definition gtb (x y : R) : bool := if Rlt_dec y x then true else false.

Definition getRecommendedTextColor (backgroundColor : string) : result string :=
  whiteContrast <- getContrastRatio "#FFFFFF" backgroundColor ;;
  blackContrast <- getContrastRatio "#000000" backgroundColor ;;
  Ok (if gtb whiteContrast blackContrast then "#FFFFFF" else "#000000").

(** The [context] argument: ['normal' | 'large' | 'ui']. *)
Inductive Context : Type := normal | large | ui.

Definition is_large (context : Context) : bool :=
  match context with large => true | _ => false end.

Record Combination : Type :=
  { isAccessible : bool;
    contrastRatio : R;
    recommendation : option string }.

Definition advice (recommendedText background : string) : string :=
  "Consider using " ++ recommendedText ++ " text on " ++ background
    ++ " background for better contrast".

Definition validateColorCombination (foreground background : string)
  (context : Context) : result Combination :=
  let isLargeText := is_large context in
  result0 <- meetsWCAGAA foreground background isLargeText ;;
  recommendation0 <-
    (if negb (passes result0)
     then recommendedText <- getRecommendedTextColor background ;;
          Ok (Some (advice recommendedText background))
     else Ok None) ;;
  Ok {| isAccessible := passes result0;
        contrastRatio := ratio result0;
        recommendation := recommendation0 |}.

(** The luminance of a parsed colour. *)
Definition luminance (v : rgb) : R :=
  getLuminance (IZR (r v)) (IZR (g v)) (IZR (b v)).

End ContrastAdvice.

(* ================================================================== *)
(** * Touch-target audit of a page *)
(* ================================================================== *)

Module TouchAudit.

Import TouchTarget.

(** An interactive element of the page: what the audit reads of it.
    [None] is [null]. *)
Record Element : Type :=
  { node : HTMLElement;
    tagName : string;
    textContent : option string;
    ariaLabel : option string }.

Record Issue : Type :=
  { i_element : Element;
    i_tagName : string;
    i_text : string;
    i_issues : list string }.

Record Audit : Type :=
  { total : nat;
    compliant : nat;
    issues : list Issue }.

(** [a || b] when [b] is a string: [null], [undefined] and the empty string
    give way to [b]. *)
Definition or_string (a : option string) (b : string) : string :=
  match a with
  | Some s => if String.eqb s "" then b else s
  | None => b
  end.

(** [a || b] when [b] may be [null]. *)
Definition or_option (a b : option string) : option string :=
  match a with
  | Some s => if String.eqb s "" then b else Some s
  | None => b
  end.

(** The browser, as far as the report reads it.  [maxTouchPoints] is [None]
    where the navigator does not define it. *)
Record Window : Type :=
  { innerWidth : Z;
    innerHeight : Z;
    ontouchstart : bool;
    maxTouchPoints : option Z;
    userAgent : string }.

Definition isTouchDevice (w : Window) : bool :=
  ontouchstart w
  || match maxTouchPoints w with Some n => (0 <? n)%Z | None => false end.

Definition isMobileViewport (w : Window) : bool := (innerWidth w <? 768)%Z.

Record Viewport : Type :=
  { isMobile : bool; v_width : Z; v_height : Z }.

Record Device : Type :=
  { isTouch : bool; d_userAgent : string }.

Record Report : Type :=
  { touchTargets : Audit;
    viewport : Viewport;
    device : Device;
    r_recommendations : list string }.

Section WithTrim.

(** [String.prototype.trim] of the platform. *)
Variable trim : string -> string.

(** [element.textContent?.trim() || element.getAttribute('aria-label')
     || 'No text'] *)
Definition issueText (element : Element) : string :=
  or_string (or_option (option_map trim (textContent element))
               (ariaLabel element))
    "No text".

(** The body of the [forEach] callback, on the two variables it updates. *)
Definition visit (acc : nat * list Issue) (element : Element)
  : nat * list Issue :=
  let '(compliant, issues) := acc in
  let validation := validateTouchTarget (node element) in
  if isValid validation then (S compliant, issues)
  else (compliant,
        issues ++ [ {| i_element := element;
                       i_tagName := tagName element;
                       i_text := issueText element;
                       i_issues := recommendations validation |} ]).

(** [auditTouchTargets], on the elements that
    [document.querySelectorAll] finds, in document order. *)
Definition auditTouchTargets (interactiveElements : list Element) : Audit :=
  let '(compliant, issues) := fold_left visit interactiveElements (0, []) in
  {| total := length interactiveElements;
     compliant := compliant;
     issues := issues |}.

Definition generateMobileA11yReport (window : Window)
  (interactiveElements : list Element) : Report :=
  let touchTargets := auditTouchTargets interactiveElements in
  let viewport := {| isMobile := isMobileViewport window;
                     v_width := innerWidth window;
                     v_height := innerHeight window |} in
  let device := {| isTouch := isTouchDevice window;
                   d_userAgent := userAgent window |} in
  let recommendations := [] in
  let recommendations :=
    if 0 <? length (issues touchTargets)
    then recommendations
           ++ [("Fix " ++ show (Z.of_nat (length (issues touchTargets)))
                  ++ " touch target size issues")%string]
    else recommendations in
  let recommendations :=
    if isMobile viewport && negb (isTouch device)
    then recommendations
           ++ ["Consider touch-friendly interactions even on non-touch mobile devices"]
    else recommendations in
  let recommendations :=
    if (v_width viewport <? 320)%Z
    then recommendations
           ++ ["Viewport is very narrow - ensure content is accessible"]
    else recommendations in
  {| touchTargets := touchTargets;
     viewport := viewport;
     device := device;
     r_recommendations := recommendations |}.

End WithTrim.

(** An element of the page measured at [w] by [h] pixels. *)
Definition sized (tag : string) (text : option string) (w h : Q) : Element :=
  {| node := measuring w h; tagName := tag; textContent := text;
     ariaLabel := None |}.

(** The validation verdict of an element. *)
Definition valid (element : Element) : bool :=
  isValid (validateTouchTarget (node element)).

(** The issue reported for an element that fails. *)
Definition issueOf (trim : string -> string) (element : Element) : Issue :=
  {| i_element := element;
     i_tagName := tagName element;
     i_text := issueText trim element;
     i_issues := recommendations (validateTouchTarget (node element)) |}.

(** Both sides reach the minimum. *)
Definition large_enough (element : Element) : Prop :=
  (44 <= width (getBoundingClientRect (node element))
   /\ 44 <= height (getBoundingClientRect (node element)))%Q.

End TouchAudit.

(* ================================================================== *)
(** * Focus utilities beside the trap *)
(* ================================================================== *)

Module FocusUtils.

Import FocusTrap.




(** The elements [trapFocus] cycles through. *)
Definition focusables (container : list Node) : list nat :=
  querySelectorAll focusableSelector container.


End FocusUtils.

(* ================================================================== *)
(** * The live regions that render an announcement *)
(* ================================================================== *)

Module LiveRegion.

Import Announcer.

(** The rendered [div]; a component that returns [null] renders [None]. *)
Record Region : Type :=
  { role : string;
    aria_live : priority;
    aria_label : string;
    className : string;
    text : string }.

(** [ScreenReaderAnnouncement]; a prop left out is [None]. *)
Definition ScreenReaderAnnouncement (message : string)
  (priority0 : option priority) (className0 : option string) : option Region :=
  let priority := match priority0 with Some p => p | None => polite end in
  let className := match className0 with Some c => c | None => "" end in
  if String.eqb message "" then None
  else Some {| role := match priority with
                       | assertive => "alert"
                       | polite => "status"
                       end;
               aria_live := priority;
               aria_label := "Status updates";
               className := ("sr-only " ++ className)%string;
               text := message |}.

(** [AnnouncementComponent] of [useScreenReaderAnnouncement]. *)
Definition AnnouncementComponent (st : state) : option Region :=
  ScreenReaderAnnouncement (announcement st) None None.

(** [ShortcutAnnouncement] of the keyboard-shortcut hook. *)
Definition ShortcutAnnouncement (message : string) : option Region :=
  if String.eqb message "" then None
  else Some {| role := "status";
               aria_live := polite;
               aria_label := ("Keyboard shortcut: " ++ message)%string;
               className := "sr-only";
               text := message |}.

End LiveRegion.

(* ================================================================== *)
(** * Form announcements *)
(* ================================================================== *)

Module FormAnnouncement.

(** The component instance: the [announcement] state, the dependency
    [message] of the last run of the effect ([None] before the first
    render), and the timer the last run of the effect started, as long as it
    is neither fired nor cancelled.  An effect runs after a render whose
    [message] differs from the recorded one, once the cleanup of the
    previous run ([clearTimeout]) has run. *)
Record state : Type :=
  { now : nat;
    announcement : string;
    deps : option string;
    timer : option nat }.

Definition mount : state :=
  {| now := 0; announcement := ""; deps := None; timer := None |}.

Definition deps_changed (st : state) (message : string) : bool :=
  match deps st with
  | Some m => negb (String.eqb m message)
  | None => true
  end.

(** The effect body, after the cleanup of the previous run. *)
Definition effect (message : string) (st : state) : state :=
  if negb (String.eqb message "")
  then {| now := now st;
          announcement := message;
          deps := Some message;
          timer := Some (now st + 3000) |}
  else {| now := now st;
          announcement := announcement st;
          deps := Some message;
          timer := None |}.

(** A render with the prop [message]. *)
Definition render (message : string) (st : state) : state :=
  if deps_changed st message then effect message st else st.

(** Letting [ms] milliseconds pass. *)
Definition advance (ms : nat) (st : state) : state :=
  let t := now st + ms in
  match timer st with
  | Some d =>
      if d <=? t
      then {| now := t; announcement := ""; deps := deps st; timer := None |}
      else {| now := t; announcement := announcement st; deps := deps st;
              timer := Some d |}
  | None =>
      {| now := t; announcement := announcement st; deps := deps st;
         timer := None |}
  end.

Inductive event : Type :=
| Props (message : string)
| Wait (ms : nat).

Definition step (st : state) (e : event) : state :=
  match e with
  | Props m => render m st
  | Wait ms => advance ms st
  end.

Definition run (es : list event) (st : state) : state := fold_left step es st.

(** The [type] prop. *)
Inductive kind : Type := error | success | info.

Definition kind_name (k : kind) : string :=
  match k with error => "error" | success => "success" | info => "info" end.

Record Region : Type :=
  { role : string;
    aria_live : string;
    aria_label : string;
    text : string }.

(** What the component returns. *)
Definition view (type : kind) (st : state) : option Region :=
  if String.eqb (announcement st) "" then None
  else Some {| role := match type with error => "alert" | _ => "status" end;
               aria_live := match type with
                            | error => "assertive"
                            | _ => "polite"
                            end;
               aria_label := ("Form " ++ kind_name type ++ ": "
                                ++ announcement st)%string;
               text := announcement st |}.

(** Mere passing of time. *)
Definition is_wait (e : event) : Prop :=
  match e with Wait _ => True | Props _ => False end.

(** Between a render that announces [m] and the time [T] its timer is due:
    [m] is shown until [T] and nothing from [T] on. *)
Definition showing (m : string) (T : nat) (s : state) : Prop :=
  deps s = Some m
  /\ ((now s < T /\ announcement s = m /\ timer s = Some T)
      \/ (T <= now s /\ announcement s = "" /\ timer s = None)).

End FormAnnouncement.

(* ================================================================== *)
(** * Password strength *)
(* ================================================================== *)

Module Password.

Definition code (c : ascii) : nat := nat_of_ascii c.

Definition between (lo hi : nat) (c : ascii) : bool :=
  (lo <=? code c) && (code c <=? hi).

(** [[a-z]], [[A-Z]], [\d] and [[^a-zA-Z\d]]. *)
Definition lower (c : ascii) : bool := between 97 122 c.
Definition upper (c : ascii) : bool := between 65 90 c.
Definition digit (c : ascii) : bool := between 48 57 c.
Definition other (c : ascii) : bool := negb (lower c || upper c || digit c).

(** [/cls/.test(s)]: some character of [s] is in the class. *)
Definition test (cls : ascii -> bool) (s : string) : bool :=
  existsb cls (list_ascii_of_string s).

Record Strength : Type :=
  { score : nat; feedback : string; color : string }.

Definition calculatePasswordStrength (password : string) : Strength :=
  let score := 0 in
  let score := if 8 <=? String.length password then score + 1 else score in
  let score := if test lower password then score + 1 else score in
  let score := if test upper password then score + 1 else score in
  let score := if test digit password then score + 1 else score in
  let score := if test other password then score + 1 else score in
  if score <=? 2
  then {| score := score; feedback := "Weak password"; color := "red" |}
  else if score <=? 3
  then {| score := score; feedback := "Fair password"; color := "yellow" |}
  else if score <=? 4
  then {| score := score; feedback := "Good password"; color := "blue" |}
  else {| score := score; feedback := "Strong password"; color := "green" |}.

(** The effect of [PasswordField] on [value]. *)
Definition strengthOf (value : string) : Strength :=
  if negb (String.eqb value "")
  then calculatePasswordStrength value
  else {| score := 0; feedback := ""; color := "gray" |}.

(** Every character of [s] is in the class. *)
Definition all (cls : ascii -> bool) (s : string) : Prop :=
  Forall (fun c => cls c = true) (list_ascii_of_string s).

(** A met criterion counts for one. *)
Definition b2n (b : bool) : nat := if b then 1 else 0.

End Password.

(* ================================================================== *)
(** * Properties of the touch-target auditor *)
(* ================================================================== *)

Module TouchTargetProofs.

Import TouchTarget.
Local Open Scope Q_scope.

Lemma Qgeb_true (x y : Q) : geb x y = true <-> y <= x.
Proof. unfold geb. apply Qle_bool_iff. Qed.




End TouchTargetProofs.

(* ================================================================== *)
(** * Properties of the focus trap *)
(* ================================================================== *)

Module FocusTrapProofs.

Import FocusTrap.

Lemma index_first (a : nat) (rest : list nat) : index (a :: rest) 0 = Some a.
Proof. reflexivity. Qed.

Lemma nth_error_last (l : list nat) (a d : nat) :
  nth_error (a :: l) (length l) = Some (last (a :: l) d).
Proof.
  revert a. induction l as [|b l IH]; intros a.
  - reflexivity.
  - change (nth_error (b :: l) (length l) = Some (last (b :: l) d)).
    apply IH.
Qed.

Lemma index_last (a : nat) (rest : list nat) :
  index (a :: rest) (Z.of_nat (length (a :: rest)) - 1)
  = Some (last (a :: rest) a).
Proof.
  unfold index.
  replace (Z.of_nat (length (a :: rest)) - 1)%Z with (Z.of_nat (length rest))
    by (cbn [length]; lia).
  destruct (Z.ltb_spec (Z.of_nat (length rest)) 0) as [H|_]; [lia|].
  rewrite Nat2Z.id. apply nth_error_last.
Qed.

Lemma index_empty (i : Z) : index [] i = None.
Proof.
  unfold index. destruct (i <? 0)%Z; [reflexivity|].
  destruct (Z.to_nat i); reflexivity.
Qed.

Lemma strict_eq_true (active e : option nat) :
  strict_eq active e = true <-> exists x, active = Some x /\ e = Some x.
Proof.
  destruct active as [x|], e as [y|]; cbn; split;
    try discriminate; try (intros [z [H1 H2]]; discriminate).
  - intros H. apply Nat.eqb_eq in H. subst. eauto.
  - intros [z [H1 H2]]. injection H1 as ->. injection H2 as ->.
    apply Nat.eqb_refl.
Qed.

Lemma strict_eq_undefined (active : option nat) : strict_eq active None = false.
Proof. destruct active; reflexivity. Qed.



(** C7. On a container with no focusable element the handler is a no-op for
    every key event, Tab and Shift+Tab included: it returns normally, the
    focus and the event are as before, and no method is called on the
    missing first or last element. *)
Theorem trapFocus_empty_noop :
  forall (container : list Node) (event : KeyboardEvent) (w : World),
    querySelectorAll focusableSelector container = [] ->
    trapFocus container event w = Ok w.
Proof.
  intros container event w Hf. unfold trapFocus.
  destruct (negb (key event =? "Tab")%string); [reflexivity|].
  rewrite Hf, !index_empty, strict_eq_undefined.
  destruct (shiftKey event); reflexivity.
Qed.

Lemma trapFocus_empty_noop_witness :
  trapFocus no_controls (tab true)
    {| activeElement := None; defaultPrevented := false |}
  = Ok {| activeElement := None; defaultPrevented := false |}.
Proof.
  apply (trapFocus_empty_noop no_controls (tab true)
           {| activeElement := None; defaultPrevented := false |}).
  reflexivity.
Defined.

End FocusTrapProofs.

(* ================================================================== *)
(** * Properties of the status announcer *)
(* ================================================================== *)

Module AnnouncerProofs.

Import Announcer.

Lemma fire_now (n : nat) (st : state) : now (fire n st) = now st.
Proof. revert st. induction n as [|n IH]; intros st; cbn; [|rewrite IH]; reflexivity. Qed.

Lemma fire_timers (n : nat) (st : state) : timers (fire n st) = timers st.
Proof. revert st. induction n as [|n IH]; intros st; cbn; [|rewrite IH]; reflexivity. Qed.

Lemma fire_announcement (n : nat) (st : state) :
  announcement (fire n st) = match n with O => announcement st | S _ => "" end.
Proof.
  revert st. induction n as [|n IH]; intros st; [reflexivity|].
  cbn [fire]. rewrite IH. destruct n; reflexivity.
Qed.

Lemma advance_now (ms : nat) (st : state) : now (advance ms st) = now st + ms.
Proof. unfold advance. rewrite fire_now. reflexivity. Qed.

Lemma advance_timers (ms : nat) (st : state) :
  timers (advance ms st)
  = filter (fun d => negb (due (now st + ms) d)) (timers st).
Proof. unfold advance. rewrite fire_timers. reflexivity. Qed.

(** A timer due by the new time has run, and the slot is empty. *)
Lemma advance_due (ms : nat) (st : state) (d : nat) :
  In d (timers st) -> d <= now st + ms -> announcement (advance ms st) = "".
Proof.
  intros Hin Hle. unfold advance. rewrite fire_announcement.
  destruct (filter (due (now st + ms)) (timers st)) as [|x l] eqn:E;
    [|reflexivity].
  exfalso.
  assert (H : In d (filter (due (now st + ms)) (timers st))).
  { apply filter_In. split; [exact Hin|]. apply Nat.leb_le. exact Hle. }
  rewrite E in H. exact H.
Qed.

(** With no timer due by the new time, the slot keeps its value. *)
Lemma advance_quiet (ms : nat) (st : state) :
  (forall d, In d (timers st) -> now st + ms < d) ->
  announcement (advance ms st) = announcement st.
Proof.
  intros H. unfold advance. rewrite fire_announcement.
  destruct (filter (due (now st + ms)) (timers st)) as [|x l] eqn:E;
    [reflexivity|].
  exfalso.
  assert (Hx : In x (filter (due (now st + ms)) (timers st)))
    by (rewrite E; left; reflexivity).
  apply filter_In in Hx. destruct Hx as [Hin Hdue].
  apply Nat.leb_le in Hdue. specialize (H x Hin). lia.
Qed.

Lemma advance_empty_stays (ms : nat) (st : state) :
  announcement st = "" -> announcement (advance ms st) = "".
Proof.
  intros H. unfold advance. rewrite fire_announcement.
  destruct (length _); [exact H | reflexivity].
Qed.

Lemma announce_now (m : string) (p : priority) (st : state) :
  now (announce m p st) = now st.
Proof. reflexivity. Qed.

Lemma announce_timers (m : string) (p : priority) (st : state) :
  timers (announce m p st) = timers st ++ [now st + delay_of p].
Proof. destruct p; reflexivity. Qed.

Lemma announce_announcement (m : string) (p : priority) (st : state) :
  announcement (announce m p st) = m.
Proof. reflexivity. Qed.








(** C2, as the hook behaves.  When [announce X] is called again before the
    delay of the first call has elapsed, the second call writes [X] once
    over the same value: the slot does not change and nothing empties it in
    between. *)
Theorem announce_again_leaves_slot :
  forall (st : state) (X : string) (p p' : priority) (ms : nat),
    timers st = [] ->
    ms < delay_of p ->
    let before := run [Announce X p; Wait ms] st in
    let after := announce X p' before in
    announcement before = X
    /\ announcement after = X
    /\ writes after = X :: writes before
    /\ mutations after = mutations before.
Proof.
  intros st X p p' ms Hfresh Hms before.
  assert (Hb : announcement before = X).
  { unfold before. cbn [run fold_left step].
    rewrite advance_quiet; [apply announce_announcement|].
    intros d Hd. rewrite announce_timers, Hfresh in Hd. cbn in Hd.
    destruct Hd as [<-|[]]. rewrite announce_now. lia. }
  clearbody before. intros after. subst after.
  split; [exact Hb|]. split; [reflexivity|]. split; [reflexivity|].
  unfold announce, setTimeout, setAnnouncement; cbn.
  rewrite Hb, String.eqb_refl. reflexivity.
Qed.

Lemma announce_again_leaves_slot_witness :
  let before := run [Announce "Saved" polite; Wait 400] init in
  let after := announce "Saved" polite before in
  announcement before = "Saved"
  /\ announcement after = "Saved"
  /\ writes after = "Saved" :: writes before
  /\ mutations after = mutations before.
Proof.
  apply (announce_again_leaves_slot init "Saved" polite polite 400).
  - reflexivity.
  - cbn. lia.
Defined.

(** C2, as stated, fails: announcing "X" twice, 500 ms apart, changes the
    slot once, and the empty string is never written. *)
Lemma reannounce_is_one_change :
  let st := run [Announce "X" polite; Wait 500; Announce "X" polite] init in
  mutations st = 1
  /\ writes st = ["X"; "X"]
  /\ ~ In "" (writes st).
Proof.
  cbv zeta. split; [reflexivity|]. split; [reflexivity|].
  vm_compute. intros [H|[H|[]]]; discriminate.
Qed.

(** The slot of the keyboard-shortcut hook is cleared like an assertive
    announcement, 2000 ms after the call. *)
Lemma announceShortcut_delay (m : string) (st : state) :
  announceShortcut m st = announce m assertive st.
Proof. reflexivity. Qed.

End AnnouncerProofs.

(* ================================================================== *)
(** * Properties of the keyboard-shortcut dispatcher *)
(* ================================================================== *)

Module ShortcutsProofs.

Import Shortcuts.










End ShortcutsProofs.

(* ================================================================== *)
(** * Properties of the contrast evaluator *)
(* ================================================================== *)

Module ContrastProofs.

Import Contrast.

Ltac ascii_cases c := destruct c as [[] [] [] [] [] [] [] []].

(** ** Parsing *)

Lemma hex_class_of_hex_char (c : ascii) : is_hex_char c -> hex_class c = true.
Proof.
  unfold is_hex_char. cbn [list_ascii_of_string In]. intros H.
  repeat (destruct H as [H|H]; [subst c; reflexivity|]). contradiction.
Qed.

Lemma hex_char_of_hex_class (c : ascii) : hex_class c = true -> is_hex_char c.
Proof.
  intros H. ascii_cases c; vm_compute in H; try discriminate H;
    unfold is_hex_char; cbn [list_ascii_of_string In]; tauto.
Qed.

Lemma digit16_of_hex_class (c : ascii) :
  hex_class c = true -> exists d, digit16 c = Some d /\ (0 <= d <= 15)%Z.
Proof.
  intros H. ascii_cases c; vm_compute in H; try discriminate H;
    eexists; (split; [reflexivity | vm_compute; split; discriminate]).
Qed.

Lemma hex_class_lower (c : ascii) : hex_class (lower_char c) = hex_class c.
Proof. ascii_cases c; reflexivity. Qed.

Lemma digit16_lower (c : ascii) : digit16 (lower_char c) = digit16 c.
Proof. ascii_cases c; reflexivity. Qed.

Lemma hex_class_hash : hex_class "#" = false.
Proof. reflexivity. Qed.

Lemma match_groups_hash (rest : string) :
  match_groups (String "#" rest) = None.
Proof.
  destruct rest as [|c2 [|c3 [|c4 [|c5 [|c6 [|c7 rest]]]]]]; reflexivity.
Qed.

(** The optional [#] never needs to be given back. *)
Lemma regex_exec_strip (s : string) :
  regex_exec s = match_groups (strip_hash s).
Proof.
  destruct s as [|c s]; [reflexivity|].
  ascii_cases c; try reflexivity.
  cbn [regex_exec strip_hash].
  destruct (match_groups s); [reflexivity | apply match_groups_hash].
Qed.

Lemma hexToRgb_strip (s : string) :
  hexToRgb s = groups_rgb (match_groups (strip_hash s)).
Proof. unfold hexToRgb. rewrite regex_exec_strip. reflexivity. Qed.

Lemma strip_hash_cases (s : string) :
  s = strip_hash s \/ s = String "#" (strip_hash s).
Proof.
  destruct s as [|c s]; [left; reflexivity|].
  ascii_cases c; try (left; reflexivity). right. reflexivity.
Qed.

Lemma strip_hash_hex (c : ascii) (s : string) :
  hex_class c = true -> strip_hash (String c s) = String c s.
Proof.
  intros H. ascii_cases c; try reflexivity. discriminate H.
Qed.

Lemma match_groups_some (s : string)
  (m : (ascii * ascii) * (ascii * ascii) * (ascii * ascii)) :
  match_groups s = Some m ->
  exists c1 c2 c3 c4 c5 c6,
    s = String c1 (String c2 (String c3 (String c4 (String c5 (String c6 "")))))
    /\ m = ((c1, c2), (c3, c4), (c5, c6))
    /\ hex_class c1 = true /\ hex_class c2 = true /\ hex_class c3 = true
    /\ hex_class c4 = true /\ hex_class c5 = true /\ hex_class c6 = true.
Proof.
  destruct s as [|c1 [|c2 [|c3 [|c4 [|c5 [|c6 [|c7 rest]]]]]]];
    try discriminate.
  unfold match_groups.
  destruct (hex_class c1) eqn:E1; [|discriminate].
  destruct (hex_class c2) eqn:E2; [|discriminate].
  destruct (hex_class c3) eqn:E3; [|discriminate].
  destruct (hex_class c4) eqn:E4; [|discriminate].
  destruct (hex_class c5) eqn:E5; [|discriminate].
  destruct (hex_class c6) eqn:E6; [|discriminate].
  cbn. intros H. injection H as <-.
  exists c1, c2, c3, c4, c5, c6. repeat split; assumption.
Qed.

Lemma match_groups_hex (c1 c2 c3 c4 c5 c6 : ascii) :
  hex_class c1 = true -> hex_class c2 = true -> hex_class c3 = true ->
  hex_class c4 = true -> hex_class c5 = true -> hex_class c6 = true ->
  match_groups
    (String c1 (String c2 (String c3 (String c4 (String c5 (String c6 ""))))))
  = Some ((c1, c2), (c3, c4), (c5, c6)).
Proof.
  intros H1 H2 H3 H4 H5 H6. unfold match_groups.
  rewrite H1, H2, H3, H4, H5, H6. reflexivity.
Qed.

Lemma parseInt16_hex (h l : ascii) :
  hex_class h = true -> hex_class l = true ->
  exists v, parseInt16 h l = Some v /\ (0 <= v <= 255)%Z.
Proof.
  intros Hh Hl.
  destruct (digit16_of_hex_class h Hh) as [x [Ex Hx]].
  destruct (digit16_of_hex_class l Hl) as [y [Ey Hy]].
  exists (16 * x + y)%Z. unfold parseInt16. rewrite Ex, Ey.
  split; [reflexivity | lia].
Qed.

Lemma groups_rgb_some (s : string) (m : _) :
  match_groups s = Some m ->
  exists v, groups_rgb (Some m) = Some v /\ byte_channels v.
Proof.
  intros H. apply match_groups_some in H.
  destruct H as (c1 & c2 & c3 & c4 & c5 & c6 & _ & -> & H1 & H2 & H3 & H4 & H5 & H6).
  destruct (parseInt16_hex c1 c2 H1 H2) as [rv [Er Hr]].
  destruct (parseInt16_hex c3 c4 H3 H4) as [gv [Eg Hg]].
  destruct (parseInt16_hex c5 c6 H5 H6) as [bv [Eb Hb]].
  exists {| r := rv; g := gv; b := bv |}. cbn [groups_rgb].
  rewrite Er, Eg, Eb. split; [reflexivity|]. repeat split; cbn; lia.
Qed.

(** [hexToRgb] returns a colour exactly on the well-formed strings, and its
    channels are bytes. *)
Lemma hexToRgb_well_formed (s : string) :
  well_formed s <-> exists v, hexToRgb s = Some v.
Proof.
  rewrite hexToRgb_strip. split.
  - intros (body & Hs & Hlen & Hall).
    destruct body as [|c1 [|c2 [|c3 [|c4 [|c5 [|c6 [|c7 rest]]]]]]];
      try discriminate Hlen.
    cbn [list_ascii_of_string] in Hall.
    repeat match goal with
           | H : Forall _ (_ :: _) |- _ => inversion H; clear H; subst
           end.
    repeat match goal with
           | H : is_hex_char _ |- _ => apply hex_class_of_hex_char in H
           end.
    assert (Hstrip : strip_hash s
                     = String c1 (String c2 (String c3 (String c4
                         (String c5 (String c6 "")))))).
    { destruct Hs as [-> | ->]; [apply strip_hash_hex; assumption | reflexivity]. }
    rewrite Hstrip.
    destruct (groups_rgb_some _ _ (match_groups_hex c1 c2 c3 c4 c5 c6
                ltac:(assumption) ltac:(assumption) ltac:(assumption)
                ltac:(assumption) ltac:(assumption) ltac:(assumption)))
      as [v [Hv _]].
    exists v. rewrite match_groups_hex by assumption. exact Hv.
  - intros [v Hv].
    destruct (match_groups (strip_hash s)) as [m|] eqn:E; [|discriminate Hv].
    apply match_groups_some in E.
    destruct E as (c1 & c2 & c3 & c4 & c5 & c6 & Hs & _ & H1 & H2 & H3 & H4 & H5 & H6).
    exists (strip_hash s). split; [apply strip_hash_cases|].
    rewrite Hs. split; [reflexivity|].
    cbn [list_ascii_of_string].
    repeat (constructor; [apply hex_char_of_hex_class; assumption|]).
    constructor.
Qed.

Lemma hexToRgb_none (s : string) : hexToRgb s = None <-> ~ well_formed s.
Proof.
  rewrite hexToRgb_well_formed. split.
  - intros H [v Hv]. congruence.
  - intros H. destruct (hexToRgb s) as [v|]; [|reflexivity].
    exfalso. apply H. exists v. reflexivity.
Qed.

Lemma hexToRgb_bytes (s : string) (v : rgb) :
  hexToRgb s = Some v -> byte_channels v.
Proof.
  rewrite hexToRgb_strip. intros Hv.
  destruct (match_groups (strip_hash s)) as [m|] eqn:E; [|discriminate Hv].
  destruct (groups_rgb_some _ _ E) as [v' [Hv' Hb]]. congruence.
Qed.

(** Letter case does not matter to the pattern nor to [parseInt]. *)
Lemma groups_rgb_lower (s : string) :
  groups_rgb (match_groups (toLowerCase s)) = groups_rgb (match_groups s).
Proof.
  destruct s as [|c1 [|c2 [|c3 [|c4 [|c5 [|c6 [|c7 rest]]]]]]];
    try reflexivity.
  cbn [toLowerCase]. unfold match_groups. rewrite !hex_class_lower.
  destruct (hex_class c1 && hex_class c2 && hex_class c3 && hex_class c4
            && hex_class c5 && hex_class c6); [|reflexivity].
  unfold groups_rgb, parseInt16. rewrite !digit16_lower. reflexivity.
Qed.

Lemma hexToRgb_spelling (s s' : string) :
  same_spelling s s' -> hexToRgb s = hexToRgb s'.
Proof.
  unfold same_spelling. intros H.
  rewrite !hexToRgb_strip, <- (groups_rgb_lower (strip_hash s)),
    <- (groups_rgb_lower (strip_hash s')), H.
  reflexivity.
Qed.

(** ** Errors *)

Lemma getContrastRatio_defined (color1 color2 : string) :
  well_formed color1 -> well_formed color2 ->
  exists x, getContrastRatio color1 color2 = Ok x.
Proof.
  intros W1 W2. apply hexToRgb_well_formed in W1, W2.
  destruct W1 as [v1 E1], W2 as [v2 E2].
  unfold getContrastRatio. rewrite E1, E2. eauto.
Qed.

(** C9. [getContrastRatio] throws its invalid-format error exactly when one
    of its two arguments is not a well-formed colour; on two well-formed
    arguments it returns a ratio, and with a malformed argument it returns
    no ratio at all. *)
Theorem getContrastRatio_throws_iff :
  forall color1 color2 : string,
    (getContrastRatio color1 color2 = Throw "Invalid hex color format"
     <-> ~ well_formed color1 \/ ~ well_formed color2)
    /\ (well_formed color1 /\ well_formed color2
        <-> exists x, getContrastRatio color1 color2 = Ok x)
    /\ (forall e, getContrastRatio color1 color2 = Throw e ->
        e = "Invalid hex color format").
Proof.
  intros color1 color2. unfold getContrastRatio.
  pose proof (hexToRgb_none color1) as N1.
  pose proof (hexToRgb_none color2) as N2.
  pose proof (hexToRgb_well_formed color1) as W1.
  pose proof (hexToRgb_well_formed color2) as W2.
  destruct (hexToRgb color1) as [v1|], (hexToRgb color2) as [v2|].
  - split; [|split].
    + split; [discriminate|].
      intros [H|H]; exfalso; apply H; [apply W1 | apply W2]; eauto.
    + split; [intros _; eauto|].
      intros _. split; [apply W1 | apply W2]; eauto.
    + discriminate.
  - split; [|split].
    + split; [intros _; right; apply N2; reflexivity | reflexivity].
    + split; [|intros [x Hx]; discriminate Hx].
      intros [_ H]. apply W2 in H. destruct H as [v Hv]. discriminate Hv.
    + intros e H. injection H as <-. reflexivity.
  - split; [|split].
    + split; [intros _; left; apply N1; reflexivity | reflexivity].
    + split; [|intros [x Hx]; discriminate Hx].
      intros [H _]. apply W1 in H. destruct H as [v Hv]. discriminate Hv.
    + intros e H. injection H as <-. reflexivity.
  - split; [|split].
    + split; [intros _; left; apply N1; reflexivity | reflexivity].
    + split; [|intros [x Hx]; discriminate Hx].
      intros [H _]. apply W1 in H. destruct H as [v Hv]. discriminate Hv.
    + intros e H. injection H as <-. reflexivity.
Qed.

(** ** Spellings *)

Lemma well_formed_FFFFFF : well_formed "FFFFFF".
Proof. apply hexToRgb_well_formed. eexists. reflexivity. Qed.

Lemma well_formed_000000 : well_formed "000000".
Proof. apply hexToRgb_well_formed. eexists. reflexivity. Qed.

Lemma lower_char_idem (c : ascii) : lower_char (lower_char c) = lower_char c.
Proof. ascii_cases c; reflexivity. Qed.

Lemma toLowerCase_idem (s : string) : toLowerCase (toLowerCase s) = toLowerCase s.
Proof.
  induction s as [|c s IH]; [reflexivity|].
  cbn [toLowerCase]. rewrite lower_char_idem, IH. reflexivity.
Qed.

Lemma strip_hash_lower (s : string) :
  strip_hash (toLowerCase s) = toLowerCase (strip_hash s).
Proof.
  destruct s as [|c s]; [reflexivity|]. ascii_cases c; reflexivity.
Qed.

(** The spellings of a colour include the one with [#], the one without, and
    the one in lower case. *)
Lemma same_spelling_hash (s : string) :
  same_spelling s (String "#" (strip_hash s)).
Proof. reflexivity. Qed.

Lemma same_spelling_bare (s : string) :
  well_formed s -> same_spelling s (strip_hash s).
Proof.
  intros W. apply hexToRgb_well_formed in W. destruct W as [v Hv].
  rewrite hexToRgb_strip in Hv.
  destruct (match_groups (strip_hash s)) as [m|] eqn:E; [|discriminate Hv].
  apply match_groups_some in E.
  destruct E as (c1 & c2 & c3 & c4 & c5 & c6 & Hs & _ & H1 & _).
  unfold same_spelling. rewrite Hs at 2.
  rewrite (strip_hash_hex c1 _ H1), <- Hs. reflexivity.
Qed.

Lemma same_spelling_lower (s : string) : same_spelling s (toLowerCase s).
Proof.
  unfold same_spelling. rewrite strip_hash_lower, toLowerCase_idem.
  reflexivity.
Qed.

(** C10. A well-formed colour is accepted with or without the leading [#]
    and in either letter case, and two spellings of the same colours give
    the same ratio; so ["FFFFFF"] against ["000000"] succeeds with the result
    of ["#ffffff"] against ["#000000"]. *)
Theorem getContrastRatio_spelling :
  forall s s' t t' : string,
    well_formed s -> well_formed t ->
    same_spelling s s' -> same_spelling t t' ->
    exists x, getContrastRatio s t = Ok x /\ getContrastRatio s' t' = Ok x.
Proof.
  intros s s' t t' Ws Wt Hs Ht.
  assert (E : getContrastRatio s' t' = getContrastRatio s t).
  { unfold getContrastRatio.
    rewrite (hexToRgb_spelling s s' Hs), (hexToRgb_spelling t t' Ht).
    reflexivity. }
  destruct (getContrastRatio_defined s t Ws Wt) as [x Hx].
  exists x. rewrite E. split; exact Hx.
Qed.

Lemma getContrastRatio_spelling_witness :
  exists x, getContrastRatio "FFFFFF" "000000" = Ok x
            /\ getContrastRatio "#ffffff" "#000000" = Ok x.
Proof.
  apply (getContrastRatio_spelling "FFFFFF" "#ffffff" "000000" "#000000").
  - exact well_formed_FFFFFF.
  - exact well_formed_000000.
  - reflexivity.
  - reflexivity.
Defined.

(** ** Luminance and ratio *)

Local Open Scope R_scope.

Lemma Rpower_one (y : R) : Rpower 1 y = 1.
Proof. unfold Rpower. rewrite ln_1, Rmult_0_r. apply exp_0. Qed.

Lemma linearize_range (c : R) : 0 <= c <= 255 -> 0 <= linearize c <= 1.
Proof.
  intros Hc. unfold linearize.
  destruct (Rle_dec (c / 255) 0.03928) as [Hle|Hgt].
  - lra.
  - assert (Hx : 0 < (c / 255 + 0.055) / 1.055 <= 1) by lra.
    split.
    + left. unfold Rpower. apply exp_pos.
    + rewrite <- (Rpower_one 2.4). apply Rle_Rpower_l; lra.
Qed.

Lemma getLuminance_range (r g b : R) :
  0 <= r <= 255 -> 0 <= g <= 255 -> 0 <= b <= 255 ->
  0 <= getLuminance r g b <= 1.
Proof.
  intros Hr Hg Hb. unfold getLuminance.
  pose proof (linearize_range r Hr). pose proof (linearize_range g Hg).
  pose proof (linearize_range b Hb). lra.
Qed.

Lemma luminance_of_parsed (s : string) (v : rgb) :
  hexToRgb s = Some v ->
  0 <= getLuminance (IZR (r v)) (IZR (g v)) (IZR (b v)) <= 1.
Proof.
  intros H. apply hexToRgb_bytes in H. destruct H as (Hr & Hg & Hb).
  apply getLuminance_range; split;
    first [apply (IZR_le 0) | apply (IZR_le _ 255)]; lia.
Qed.

Lemma ratio_range (l1 l2 : R) :
  0 <= l1 <= 1 -> 0 <= l2 <= 1 ->
  1 <= (Rmax l1 l2 + 0.05) / (Rmin l1 l2 + 0.05) <= 21.
Proof.
  intros H1 H2.
  assert (Hb : 0 <= Rmin l1 l2 /\ Rmin l1 l2 <= Rmax l1 l2 /\ Rmax l1 l2 <= 1).
  { unfold Rmin, Rmax. destruct (Rle_dec l1 l2); lra. }
  set (bright := Rmax l1 l2) in *. set (dark := Rmin l1 l2) in *.
  assert (Hd : 0 < dark + 0.05) by lra.
  split.
  - apply Rmult_le_reg_r with (dark + 0.05); [exact Hd|].
    unfold Rdiv. rewrite Rmult_assoc, Rinv_l by lra. lra.
  - apply Rmult_le_reg_r with (dark + 0.05); [exact Hd|].
    unfold Rdiv. rewrite Rmult_assoc, Rinv_l by lra. lra.
Qed.

(** C8. The contrast ratio does not depend on the order of its two
    arguments, and on well-formed colours it is a number between 1 and 21. *)
Theorem getContrastRatio_symmetric_bounded :
  forall A B : string,
    getContrastRatio A B = getContrastRatio B A
    /\ (well_formed A -> well_formed B ->
        exists x, getContrastRatio A B = Ok x
                  /\ getContrastRatio B A = Ok x
                  /\ 1 <= x <= 21)
    /\ (forall x, getContrastRatio A B = Ok x -> 1 <= x <= 21).
Proof.
  intros A B.
  assert (Hsym : getContrastRatio A B = getContrastRatio B A).
  { unfold getContrastRatio.
    destruct (hexToRgb A) as [va|], (hexToRgb B) as [vb|]; try reflexivity.
    cbv zeta. rewrite Rmax_comm, Rmin_comm. reflexivity. }
  assert (Hrange : forall x, getContrastRatio A B = Ok x -> 1 <= x <= 21).
  { unfold getContrastRatio.
    destruct (hexToRgb A) as [va|] eqn:Ea; [|discriminate].
    destruct (hexToRgb B) as [vb|] eqn:Eb; [|discriminate].
    intros x Hx. injection Hx as <-.
    apply ratio_range; eapply luminance_of_parsed; eassumption. }
  split; [exact Hsym|]. split; [|exact Hrange].
  intros Wa Wb.
  destruct (getContrastRatio_defined A B Wa Wb) as [x Hx].
  exists x. split; [exact Hx|]. split; [rewrite <- Hsym; exact Hx|].
  apply Hrange, Hx.
Qed.

(** ** Levels *)

Lemma geb_true (x y : R) : geb x y = true <-> y <= x.
Proof. unfold geb. destruct (Rle_dec y x); split; try tauto; discriminate. Qed.

Lemma geb_false (x y : R) : geb x y = false <-> x < y.
Proof.
  unfold geb. destruct (Rle_dec y x); split; try discriminate; try lra;
    reflexivity.
Qed.

(** C1, as the code has it.  On well-formed colours [meetsWCAGAA] returns a
    result whose level is decided by the unrounded ratio [x]: [AAA] exactly
    when [x] reaches 7 for normal text and 4.5 for large text; [AA] exactly
    when [x] reaches the required ratio (4.5 normal, 3 large) and stays below
    that threshold; [Fail] exactly when [x] is below the required ratio. *)
Theorem meetsWCAGAA_level :
  forall (foreground background : string) (isLargeText : bool),
    well_formed foreground -> well_formed background ->
    exists (x : R) (res : ContrastResult),
      getContrastRatio foreground background = Ok x
      /\ meetsWCAGAA foreground background isLargeText = Ok res
      /\ required res = (if isLargeText then 3 else 4.5)
      /\ (level res = AAA <-> (if isLargeText then 4.5 else 7) <= x)
      /\ (level res = AA
          <-> (if isLargeText then 3 else 4.5) <= x
              /\ x < (if isLargeText then 4.5 else 7))
      /\ (level res = Fail <-> x < (if isLargeText then 3 else 4.5)).
Proof.
  intros fg bg isLargeText Wf Wb.
  destruct (getContrastRatio_defined fg bg Wf Wb) as [x Hx].
  exists x. unfold meetsWCAGAA. rewrite Hx. eexists.
  split; [reflexivity|]. split; [reflexivity|]. cbn [required level].
  split; [reflexivity|].
  unfold requiredRatioAAA, requiredRatio.
  destruct isLargeText.
  - destruct (geb x 4.5) eqn:E1; [apply geb_true in E1 | apply geb_false in E1];
      [|destruct (geb x 3) eqn:E2;
         [apply geb_true in E2 | apply geb_false in E2]];
      repeat split; intros; try discriminate; try lra; try reflexivity.
  - destruct (geb x 7) eqn:E1; [apply geb_true in E1 | apply geb_false in E1];
      [|destruct (geb x 4.5) eqn:E2;
         [apply geb_true in E2 | apply geb_false in E2]];
      repeat split; intros; try discriminate; try lra; try reflexivity.
Qed.

Lemma well_formed_white : well_formed "#FFFFFF".
Proof. apply hexToRgb_well_formed. eexists. reflexivity. Qed.

Lemma well_formed_767676 : well_formed "#767676".
Proof. apply hexToRgb_well_formed. eexists. reflexivity. Qed.

Lemma meetsWCAGAA_level_witness :
  exists (x : R) (res : ContrastResult),
    getContrastRatio "#FFFFFF" "#767676" = Ok x
    /\ meetsWCAGAA "#FFFFFF" "#767676" true = Ok res
    /\ required res = 3
    /\ (level res = AAA <-> 4.5 <= x)
    /\ (level res = AA <-> 3 <= x /\ x < 4.5)
    /\ (level res = Fail <-> x < 3).
Proof.
  apply (meetsWCAGAA_level "#FFFFFF" "#767676" true).
  - exact well_formed_white.
  - exact well_formed_767676.
Defined.

(** ** A large-text pair between the two thresholds *)

Lemma Rpower_fifth_root (y : R) : 0 < y -> Rpower (y ^ 5) (/ 5) = y.
Proof.
  intros Hy. rewrite <- (Rpower_pow 5 y Hy), Rpower_mult.
  replace (INR 5 * / 5) with 1 by (rewrite INR_IZR_INZ; cbn; lra).
  apply Rpower_1, Hy.
Qed.

Lemma Rpower_gamma (x : R) : 0 < x -> Rpower x 2.4 = Rpower (x ^ 12) (/ 5).
Proof.
  intros Hx. rewrite <- (Rpower_pow 12 x Hx), Rpower_mult.
  replace (INR 12 * / 5) with 2.4 by (rewrite INR_IZR_INZ; cbn; lra).
  reflexivity.
Qed.

(** Rational bounds on [x ^ 2.4] from bounds on [x ^ 12]. *)
Lemma Rpower_gamma_bounds (x lo hi : R) :
  0 < x -> 0 < lo -> 0 < hi ->
  lo ^ 5 <= x ^ 12 -> x ^ 12 <= hi ^ 5 ->
  lo <= Rpower x 2.4 <= hi.
Proof.
  intros Hx Hlo Hhi Hl Hh. rewrite (Rpower_gamma x Hx).
  assert (H5 : 0 <= / 5) by lra.
  split.
  - rewrite <- (Rpower_fifth_root lo Hlo) at 1.
    apply Rle_Rpower_l; [exact H5|]. split; [apply pow_lt|]; assumption.
  - rewrite <- (Rpower_fifth_root hi Hhi) at 1.
    apply Rle_Rpower_l; [exact H5|]. split; [apply pow_lt|]; assumption.
Qed.

Lemma linearize_255 : linearize 255 = 1.
Proof.
  unfold linearize.
  destruct (Rle_dec (255 / 255) 0.03928) as [H|_]; [lra|].
  replace ((255 / 255 + 0.055) / 1.055) with 1 by lra.
  apply Rpower_one.
Qed.

Lemma linearize_118 : 0.176 <= linearize 118 <= 0.183.
Proof.
  unfold linearize.
  destruct (Rle_dec (118 / 255) 0.03928) as [H|_]; [lra|].
  replace ((118 / 255 + 0.055) / 1.055) with (5281 / 10761) by lra.
  apply Rpower_gamma_bounds; lra.
Qed.

Lemma ratio_white_767676 :
  exists x, getContrastRatio "#FFFFFF" "#767676" = Ok x /\ 4.5 <= x < 4.668.
Proof.
  eexists. split; [reflexivity|].
  change (4.5 <= (Rmax (getLuminance 255 255 255) (getLuminance 118 118 118)
                  + 0.05)
                 / (Rmin (getLuminance 255 255 255) (getLuminance 118 118 118)
                    + 0.05) < 4.668).
  unfold getLuminance. rewrite linearize_255.
  pose proof linearize_118 as Hg.
  set (v := linearize 118) in *.
  rewrite Rmax_left, Rmin_right by lra.
  replace (0.2126 * 1 + 0.7152 * 1 + 0.0722 * 1 + 0.05) with 1.05 by lra.
  replace (0.2126 * v + 0.7152 * v + 0.0722 * v + 0.05) with (v + 0.05) by lra.
  assert (Hd : 0 < v + 0.05) by lra.
  split.
  - apply Rmult_le_reg_r with (v + 0.05); [exact Hd|].
    unfold Rdiv. rewrite Rmult_assoc, Rinv_l by lra. lra.
  - apply Rmult_lt_reg_r with (v + 0.05); [exact Hd|].
    unfold Rdiv. rewrite Rmult_assoc, Rinv_l by lra. lra.
Qed.

(** C1, as stated, fails: white on [#767676] as large text has a ratio of
    about 4.54, which [meetsWCAGAA] rates [AAA] although it is below 1.556
    times the required ratio of 3. *)
Lemma aaa_multiplier_counterexample :
  exists (x : R) (res : ContrastResult),
    getContrastRatio "#FFFFFF" "#767676" = Ok x
    /\ meetsWCAGAA "#FFFFFF" "#767676" true = Ok res
    /\ level res = AAA
    /\ ~ (1.556 * required res <= x).
Proof.
  destruct ratio_white_767676 as [x [Hx Hb]].
  exists x. unfold meetsWCAGAA. rewrite Hx. eexists.
  split; [reflexivity|]. split; [reflexivity|]. cbn [level required].
  unfold requiredRatioAAA, requiredRatio.
  assert (E : geb x 4.5 = true) by (apply geb_true; lra).
  rewrite E. split; [reflexivity|]. lra.
Qed.

End ContrastProofs.

(* ================================================================== *)
(** * Properties of the password meter *)
(* ================================================================== *)

Module PasswordProofs.

Import Password.

Lemma score_sum (password : string) :
  score (calculatePasswordStrength password)
  = b2n (8 <=? String.length password) + b2n (test lower password)
    + b2n (test upper password) + b2n (test digit password)
    + b2n (test other password).
Proof.
  unfold calculatePasswordStrength.
  destruct (8 <=? String.length password), (test lower password),
    (test upper password), (test digit password), (test other password);
    reflexivity.
Qed.

Lemma feedback_of_score (password : string) :
  let s := calculatePasswordStrength password in
  (feedback s, color s)
  = if score s <=? 2 then ("Weak password", "red")
    else if score s <=? 3 then ("Fair password", "yellow")
    else if score s <=? 4 then ("Good password", "blue")
    else ("Strong password", "green").
Proof.
  unfold calculatePasswordStrength.
  destruct (8 <=? String.length password), (test lower password),
    (test upper password), (test digit password), (test other password);
    reflexivity.
Qed.

Lemma classes_cover (c : ascii) :
  lower c || upper c || digit c || other c = true.
Proof. unfold other. destruct (lower c || upper c || digit c); reflexivity. Qed.

Lemma classes_disjoint (c : ascii) :
  (lower c = true -> upper c = false /\ digit c = false /\ other c = false)
  /\ (upper c = true -> lower c = false /\ digit c = false /\ other c = false)
  /\ (digit c = true -> lower c = false /\ upper c = false /\ other c = false)
  /\ (other c = true -> lower c = false /\ upper c = false /\ digit c = false).
Proof.
  unfold other, lower, upper, digit, between.
  destruct (Nat.leb_spec 97 (code c)), (Nat.leb_spec (code c) 122),
    (Nat.leb_spec 65 (code c)), (Nat.leb_spec (code c) 90),
    (Nat.leb_spec 48 (code c)), (Nat.leb_spec (code c) 57);
    cbn; repeat split; intros; try discriminate; try reflexivity; lia.
Qed.

Ltac disjoint_classes :=
  let c := fresh "c" in
  let Hc := fresh "Hc" in
  intros c Hc; pose proof (classes_disjoint c) as (? & ? & ? & ?);
  intuition.

Lemma test_none (cls cls' : ascii -> bool) (s : string) :
  (forall c, cls c = true -> cls' c = false) ->
  all cls s -> test cls' s = false.
Proof.
  intros Hd. unfold all, test.
  induction (list_ascii_of_string s) as [|c l IH]; intros Hall;
    [reflexivity|].
  inversion Hall as [|? ? Hc Hl]; subst. cbn [existsb].
  rewrite (Hd c Hc), (IH Hl). reflexivity.
Qed.

(** X1. The score of a password counts the criteria it meets, so it is at
    most 5, and at least 1 for a non-empty password, each character being a
    lower-case letter, an upper-case letter, a digit or something else. *)
Theorem password_score_bounds :
  forall password : string,
    score (calculatePasswordStrength password) <= 5
    /\ (password <> "" -> 1 <= score (calculatePasswordStrength password)).
Proof.
  intros password. rewrite score_sum. split.
  - destruct (8 <=? String.length password), (test lower password),
      (test upper password), (test digit password), (test other password);
      cbn; lia.
  - intros Hne. destruct password as [|c rest]; [congruence|].
    unfold test. cbn [list_ascii_of_string existsb].
    pose proof (classes_cover c) as Hc.
    destruct (lower c), (upper c), (digit c), (other c); try discriminate Hc;
      cbn [orb b2n]; lia.
Qed.


(** X3. A password made of characters of a single kind (only lower-case
    letters, only upper-case letters, only digits, or only other characters)
    is rated weak, however long it is. *)
Theorem password_single_class_weak :
  forall password : string,
    all lower password \/ all upper password
    \/ all digit password \/ all other password ->
    feedback (calculatePasswordStrength password) = "Weak password"
    /\ color (calculatePasswordStrength password) = "red"
    /\ score (calculatePasswordStrength password) <= 2.
Proof.
  intros password H.
  assert (Hs : score (calculatePasswordStrength password) <= 2).
  { rewrite score_sum.
    destruct H as [H|[H|[H|H]]].
    - rewrite (test_none lower upper password ltac:(disjoint_classes) H),
        (test_none lower digit password ltac:(disjoint_classes) H),
        (test_none lower other password ltac:(disjoint_classes) H).
      destruct (8 <=? String.length password), (test lower password); cbn; lia.
    - rewrite (test_none upper lower password ltac:(disjoint_classes) H),
        (test_none upper digit password ltac:(disjoint_classes) H),
        (test_none upper other password ltac:(disjoint_classes) H).
      destruct (8 <=? String.length password), (test upper password); cbn; lia.
    - rewrite (test_none digit lower password ltac:(disjoint_classes) H),
        (test_none digit upper password ltac:(disjoint_classes) H),
        (test_none digit other password ltac:(disjoint_classes) H).
      destruct (8 <=? String.length password), (test digit password); cbn; lia.
    - rewrite (test_none other lower password ltac:(disjoint_classes) H),
        (test_none other upper password ltac:(disjoint_classes) H),
        (test_none other digit password ltac:(disjoint_classes) H).
      destruct (8 <=? String.length password), (test other password); cbn; lia. }
  pose proof (feedback_of_score password) as Hf. cbv zeta in Hf.
  apply Nat.leb_le in Hs. rewrite Hs in Hf.
  injection Hf as Hf Hc. apply Nat.leb_le in Hs. auto.
Qed.

Lemma password_single_class_weak_witness :
  feedback (calculatePasswordStrength "12345678901234567890") = "Weak password"
  /\ color (calculatePasswordStrength "12345678901234567890") = "red"
  /\ score (calculatePasswordStrength "12345678901234567890") <= 2.
Proof.
  apply (password_single_class_weak "12345678901234567890").
  right. right. left. unfold all. cbn [list_ascii_of_string].
  repeat (constructor; [reflexivity|]). constructor.
Defined.

End PasswordProofs.

(* ================================================================== *)
(** * Properties of the form announcement *)
(* ================================================================== *)

Module FormAnnouncementProofs.

Import FormAnnouncement.

Lemma form_advance_now (ms : nat) (s : state) : now (advance ms s) = now s + ms.
Proof.
  unfold advance. destruct (timer s) as [d|]; [|reflexivity].
  destruct (d <=? now s + ms); reflexivity.
Qed.

Lemma advance_deps (ms : nat) (s : state) : deps (advance ms s) = deps s.
Proof.
  unfold advance. destruct (timer s) as [d|]; [|reflexivity].
  destruct (d <=? now s + ms); reflexivity.
Qed.

Lemma render_deps (m : string) (s : state) : deps (render m s) = Some m.
Proof.
  unfold render, deps_changed.
  destruct (deps s) as [m'|] eqn:E; cbn.
  - destruct (String.eqb_spec m' m) as [->|Hne]; cbn; [exact E|].
    unfold effect. destruct (negb (m =? "")%string); reflexivity.
  - unfold effect. destruct (negb (m =? "")%string); reflexivity.
Qed.

Lemma waits_deps (es : list event) (s : state) :
  Forall is_wait es -> deps (run es s) = deps s.
Proof.
  revert s. induction es as [|e es IH]; intros s Hes; [reflexivity|].
  inversion Hes as [|? ? He Hes']; subst. cbn [run fold_left].
  change (deps (run es (step s e)) = deps s). rewrite (IH _ Hes').
  destruct e as [m|ms]; [contradiction|]. apply advance_deps.
Qed.

Lemma render_fresh (m : string) (s : state) :
  m <> "" -> deps s <> Some m ->
  render m s
  = {| now := now s; announcement := m; deps := Some m;
       timer := Some (now s + 3000) |}.
Proof.
  intros Hm Hd. unfold render, deps_changed.
  assert (E : match deps s with
              | Some m' => negb (m' =? m)%string
              | None => true
              end = true).
  { destruct (deps s) as [m'|]; [|reflexivity].
    destruct (String.eqb_spec m' m) as [->|_]; [congruence | reflexivity]. }
  rewrite E. unfold effect.
  destruct (String.eqb_spec m "") as [->|_]; [congruence | reflexivity].
Qed.

Lemma showing_advance (m : string) (T ms : nat) (s : state) :
  showing m T s -> showing m T (advance ms s).
Proof.
  intros [Hd H]. split; [rewrite advance_deps; exact Hd|].
  unfold advance.
  destruct H as [(Hlt & Ha & Ht) | (Hge & Ha & Ht)]; rewrite Ht.
  - destruct (Nat.leb_spec T (now s + ms)) as [Hdue|Hnot]; cbn.
    + right. auto.
    + left. auto.
  - right. cbn. repeat split; [lia | exact Ha].
Qed.

Lemma showing_waits (m : string) (T : nat) (es : list event) (s : state) :
  Forall is_wait es -> showing m T s -> showing m T (run es s).
Proof.
  revert s. induction es as [|e es IH]; intros s Hes Hs; [exact Hs|].
  inversion Hes as [|? ? He Hes']; subst. cbn [run fold_left].
  apply (IH _ Hes'). destruct e as [m'|ms]; [contradiction|].
  apply showing_advance, Hs.
Qed.

Lemma silent_waits (es : list event) (s : state) :
  Forall is_wait es -> timer s = None ->
  announcement (run es s) = announcement s /\ timer (run es s) = None.
Proof.
  revert s. induction es as [|e es IH]; intros s Hes Ht; [auto|].
  inversion Hes as [|? ? He Hes']; subst. cbn [run fold_left].
  destruct e as [m'|ms]; [contradiction|].
  assert (E : step s (Wait ms)
              = {| now := now s + ms; announcement := announcement s;
                   deps := deps s; timer := None |}).
  { cbn. unfold advance. rewrite Ht. reflexivity. }
  change (fold_left step es (step s (Wait ms))) with (run es (step s (Wait ms))).
  pose proof (IH (step s (Wait ms)) Hes') as H.
  rewrite E in H. specialize (H eq_refl). rewrite E. exact H.
Qed.

(** X4. When a render brings a new non-empty [message], the component shows
    it for exactly 3000 ms if the prop stays as it is: the announcement is
    [message] at every earlier time and empty from then on, whatever was
    shown or pending before, since the previous timer is cancelled. *)
Theorem form_announcement_window :
  forall (st : state) (message : string) (es : list event),
    message <> "" -> deps st <> Some message -> Forall is_wait es ->
    let st' := run es (render message st) in
    (now st' < now st + 3000 -> announcement st' = message)
    /\ (now st + 3000 <= now st' -> announcement st' = "").
Proof.
  intros st message es Hm Hd Hes st'.
  assert (H : showing message (now st + 3000) st').
  { apply showing_waits; [exact Hes|]. rewrite (render_fresh _ _ Hm Hd).
    split; [reflexivity|]. left. cbn. repeat split. lia. }
  destruct H as [_ [(Hlt & Ha & _) | (Hge & Ha & _)]]; split; intros H;
    first [exact Ha | lia].
Qed.

Lemma form_announcement_window_witness :
  let st' := run [Wait 1000; Wait 1999] (render "Saved" mount) in
  (now st' < now mount + 3000 -> announcement st' = "Saved")
  /\ (now mount + 3000 <= now st' -> announcement st' = "").
Proof.
  apply (form_announcement_window mount "Saved" [Wait 1000; Wait 1999]).
  - discriminate.
  - discriminate.
  - repeat constructor.
Defined.

(** X5. A render with the message of the previous render does nothing: a
    message that is still the current prop is not announced again, not even
    after its announcement has been cleared. *)
Theorem form_announcement_same_message :
  forall (st : state) (message : string) (es : list event),
    Forall is_wait es ->
    run (es ++ [Props message]) (render message st)
    = run es (render message st).
Proof.
  intros st message es Hes. unfold run. rewrite fold_left_app.
  cbn [fold_left step]. fold (run es (render message st)).
  unfold render at 1, deps_changed.
  rewrite (waits_deps es _ Hes), render_deps, String.eqb_refl. reflexivity.
Qed.

Lemma form_announcement_same_message_witness :
  run ([Wait 5000] ++ [Props "Saved"]) (render "Saved" mount)
  = run [Wait 5000] (render "Saved" mount).
Proof.
  apply (form_announcement_same_message mount "Saved" [Wait 5000]).
  repeat constructor.
Defined.

(** X6. When the prop goes back to the empty string before the 3000 ms are
    over, the pending clear is cancelled and nothing replaces it: the
    message stays in the live region for as long as only time passes. *)
Theorem form_announcement_stuck :
  forall (st : state) (message : string) (ms : nat) (es : list event),
    message <> "" -> deps st <> Some message -> ms < 3000 ->
    Forall is_wait es ->
    let st' := run ([Props message; Wait ms; Props ""] ++ es) st in
    announcement st' = message /\ timer st' = None.
Proof.
  intros st message ms es Hm Hd Hms Hes st'. subst st'.
  unfold run. rewrite fold_left_app. cbn [fold_left step].
  rewrite (render_fresh _ _ Hm Hd).
  set (s1 := advance ms _).
  assert (H1 : announcement s1 = message /\ deps s1 = Some message).
  { unfold s1, advance. cbn [timer now].
    destruct (Nat.leb_spec (now st + 3000) (now st + ms)) as [H|H]; [lia|].
    split; reflexivity. }
  destruct H1 as [Ha Hd1]. clearbody s1.
  assert (E : render "" s1
              = {| now := now s1; announcement := message; deps := Some "";
                   timer := None |}).
  { unfold render, deps_changed. rewrite Hd1.
    destruct (String.eqb_spec message "") as [->|_]; [congruence|].
    cbn. unfold effect. cbn. rewrite Ha. reflexivity. }
  rewrite E.
  exact (silent_waits es
           {| now := now s1; announcement := message; deps := Some "";
              timer := None |} Hes eq_refl).
Qed.

Lemma form_announcement_stuck_witness :
  let st' := run ([Props "Saved"; Wait 100; Props ""] ++ [Wait 4000]) mount in
  announcement st' = "Saved" /\ timer st' = None.
Proof.
  apply (form_announcement_stuck mount "Saved" 100 [Wait 4000]).
  - discriminate.
  - discriminate.
  - lia.
  - repeat constructor.
Defined.

End FormAnnouncementProofs.

(* ================================================================== *)
(** * Further properties of the status announcer and its live regions *)
(* ================================================================== *)

Module LiveRegionProofs.

Import Announcer.
Import AnnouncerProofs.
Import LiveRegion.

Lemma clear_pending_step (s : state) (c : call) :
  clear_pending s -> clear_pending (step s c).
Proof.
  intros Hs. destruct c as [m p| |ms]; cbn [step].
  - intros _. exists (now s + delay_of p). split.
    + rewrite announce_timers. apply in_or_app. right. left. reflexivity.
    + rewrite announce_now. destruct p; cbn; lia.
  - intros H. exfalso. apply H. reflexivity.
  - intros Hne. rewrite advance_now, advance_timers.
    destruct (String.eqb_spec (announcement s) "") as [He|Hshown].
    + exfalso. apply Hne, advance_empty_stays, He.
    + destruct (Hs Hshown) as [d [Hin Hd]].
      destruct (Nat.le_gt_cases d (now s + ms)) as [Hdue|Hlater].
      * exfalso. apply Hne. exact (advance_due ms s d Hin Hdue).
      * exists d. split; [|lia].
        apply filter_In. split; [exact Hin|].
        unfold due. apply Bool.negb_true_iff, Nat.leb_gt. exact Hlater.
Qed.

Lemma clear_pending_run (cs : list call) (s : state) :
  clear_pending s -> clear_pending (run cs s).
Proof.
  revert s. induction cs as [|c cs IH]; intros s Hs; [exact Hs|].
  cbn [run fold_left]. apply IH, clear_pending_step, Hs.
Qed.

Lemma clear_pending_init : clear_pending init.
Proof. intros H. exfalso. apply H. reflexivity. Qed.

(** X7. However the hook has been used since it was mounted, with
    announcements of either urgency, clears and pauses in any order, two
    seconds without a call leave the slot empty: no message outlives 2000 ms
    of silence. *)
Theorem announcement_bounded_lifetime :
  forall (cs : list call) (ms : nat),
    2000 <= ms -> announcement (advance ms (run cs init)) = "".
Proof.
  intros cs ms Hms.
  pose proof (clear_pending_run cs init clear_pending_init) as H.
  set (s := run cs init) in *.
  destruct (String.eqb_spec (announcement s) "") as [He|Hshown].
  - apply advance_empty_stays, He.
  - destruct (H Hshown) as [d [Hin Hd]].
    apply (advance_due ms s d Hin). lia.
Qed.

Lemma announcement_bounded_lifetime_witness :
  announcement
    (advance 2000
       (run [Announce "A" polite; Wait 900; Announce "B" assertive; Wait 50]
          init)) = "".
Proof.
  apply (announcement_bounded_lifetime
           [Announce "A" polite; Wait 900; Announce "B" assertive; Wait 50]
           2000).
  lia.
Defined.

(** X8. Only [announce] fills the slot: once it is empty (after
    [clearAnnouncement], for one) it stays empty through every sequence of
    clears and pauses, so a timer that is still pending never brings a
    message back. *)
Theorem announcement_stays_empty :
  forall (st : state) (cs : list call),
    Forall no_announce cs ->
    announcement (run cs (clearAnnouncement st)) = ""
    /\ (announcement st = "" -> announcement (run cs st) = "").
Proof.
  intros st cs Hcs.
  assert (H : forall s, announcement s = "" -> announcement (run cs s) = "").
  { induction cs as [|c cs IH]; intros s Hs; [exact Hs|].
    inversion Hcs as [|? ? Hc Hcs']; subst. cbn [run fold_left].
    apply (IH Hcs'). destruct c as [m p| |ms]; cbn in Hc; [contradiction| |].
    - reflexivity.
    - apply advance_empty_stays, Hs. }
  split; [apply H; reflexivity | apply H].
Qed.

Lemma announcement_stays_empty_witness :
  announcement
    (run [Wait 700; Clear; Wait 700]
       (clearAnnouncement (announce "A" assertive init))) = ""
  /\ (announcement (announce "A" assertive init) = "" ->
      announcement
        (run [Wait 700; Clear; Wait 700] (announce "A" assertive init)) = "").
Proof.
  apply (announcement_stays_empty (announce "A" assertive init)
           [Wait 700; Clear; Wait 700]).
  repeat constructor.
Defined.

(** X9. The region rendered by [AnnouncementComponent] is absent exactly
    when the slot is empty, and otherwise it is a polite [status] region
    holding the message: the urgency given to [announce] sets the delay of
    the clear but never reaches the rendered region, which is the same after
    an assertive and after a polite announcement. *)
Theorem announcement_component_polite :
  forall (st : state) (message : string) (p : priority),
    (AnnouncementComponent st = None <-> announcement st = "")
    /\ (forall region, AnnouncementComponent st = Some region ->
        role region = "status" /\ aria_live region = polite
        /\ text region = announcement st)
    /\ AnnouncementComponent (announce message p st)
       = AnnouncementComponent (announce message polite st)
    /\ AnnouncementComponent (announce message p st)
       = ScreenReaderAnnouncement message (Some polite) (Some "").
Proof.
  intros st message p. unfold AnnouncementComponent, ScreenReaderAnnouncement.
  split; [|split; [|split]].
  - destruct (String.eqb_spec (announcement st) "") as [He|Hne].
    + split; [intros _; exact He | reflexivity].
    + split; [discriminate | contradiction].
  - intros region.
    destruct (String.eqb_spec (announcement st) "") as [He|Hne];
      [discriminate|].
    intros H. injection H as <-. cbn. auto.
  - reflexivity.
  - reflexivity.
Qed.

End LiveRegionProofs.

(* ================================================================== *)
(** * Further properties of the focus utilities *)
(* ================================================================== *)

Module FocusUtilsProofs.

Import FocusTrap.
Import FocusTrapProofs.
Import FocusUtils.

Lemma index_In (l : list nat) (i : Z) (x : nat) : index l i = Some x -> In x l.
Proof.
  unfold index. destruct (i <? 0)%Z; [discriminate|]. apply nth_error_In.
Qed.

Lemma trapFocus_nonempty (container : list Node) (a : nat) (rest : list nat)
  (shift : bool) (w : World) :
  focusables container = a :: rest ->
  trapFocus container (tab shift) w
  = if shift
    then if strict_eq (activeElement w) (Some a)
         then Ok {| activeElement := Some (last (a :: rest) a);
                    defaultPrevented := true |}
         else Ok w
    else if strict_eq (activeElement w) (Some (last (a :: rest) a))
         then Ok {| activeElement := Some a; defaultPrevented := true |}
         else Ok w.
Proof.
  unfold focusables. intros Hf. unfold trapFocus, tab.
  cbn [key shiftKey]. replace (("Tab" =? "Tab")%string) with true by reflexivity.
  cbn [negb]. rewrite Hf, index_first, index_last.
  destruct shift; reflexivity.
Qed.

Lemma last_In (a : nat) (rest : list nat) : In (last (a :: rest) a) (a :: rest).
Proof. apply (index_In _ _ _ (index_last a rest)). Qed.

(** X10. [trapFocus] never throws, whatever the container, the key and the
    focused element.  It either leaves focus and event untouched, or, on a
    Tab key with the focus on an element of the focusable set, cancels the
    default action and moves the focus to an element of that set. *)
Theorem trapFocus_total :
  forall (container : list Node) (event : KeyboardEvent) (w : World),
    exists w' : World,
      trapFocus container event w = Ok w'
      /\ (w' = w
          \/ (key event = "Tab"
              /\ defaultPrevented w' = true
              /\ (exists y, activeElement w = Some y
                            /\ In y (focusables container))
              /\ (exists x, activeElement w' = Some x
                            /\ In x (focusables container)))).
Proof.
  intros container [k shift] w.
  destruct (String.eqb_spec k "Tab") as [->|Hk].
  - destruct (focusables container) as [|a rest] eqn:Hf.
    + exists w. split; [|left; reflexivity].
      unfold focusables in Hf. unfold trapFocus. cbn [key shiftKey].
      replace (("Tab" =? "Tab")%string) with true by reflexivity. cbn [negb].
      rewrite Hf, !index_empty, strict_eq_undefined.
      destruct shift; reflexivity.
    + change {| key := "Tab"; shiftKey := shift |} with (tab shift).
      rewrite (trapFocus_nonempty container a rest shift w Hf).
      pose proof (last_In a rest) as Hz.
      destruct shift.
      * destruct (strict_eq (activeElement w) (Some a)) eqn:E.
        -- apply strict_eq_true in E. destruct E as [x [Hx Hax]].
           injection Hax as <-.
           eexists. split; [reflexivity|]. right. cbn.
           repeat split; eauto using in_eq.
        -- exists w. auto.
      * destruct (strict_eq (activeElement w) (Some (last (a :: rest) a))) eqn:E.
        -- apply strict_eq_true in E. destruct E as [x [Hx Hzx]].
           injection Hzx as <-.
           eexists. split; [reflexivity|]. right. cbn.
           repeat split; eauto using in_eq.
        -- exists w. auto.
  - exists w. split; [|left; reflexivity].
    unfold trapFocus. cbn [key].
    destruct (String.eqb_spec k "Tab") as [->|_]; [congruence | reflexivity].
Qed.




End FocusUtilsProofs.

(* ================================================================== *)
(** * Properties of the page audit *)
(* ================================================================== *)

Module TouchAuditProofs.

Import TouchTarget.
Import TouchAudit.

Section WithTrim.

Variable trim : string -> string.

Lemma visit_fold (l : list Element) (c : nat) (acc : list Issue) :
  fold_left (visit trim) l (c, acc)
  = (c + length (filter valid l),
     acc ++ map (issueOf trim) (filter (fun e => negb (valid e)) l)).
Proof.
  revert c acc. induction l as [|e l IH]; intros c acc.
  - cbn. rewrite Nat.add_0_r, app_nil_r. reflexivity.
  - cbn [fold_left filter]. unfold visit at 2. fold (valid e).
    destruct (valid e) eqn:E; cbn [negb]; rewrite IH.
    + cbn [length]. f_equal. lia.
    + cbn [map]. rewrite <- app_assoc. reflexivity.
Qed.

Lemma audit_unfold (l : list Element) :
  auditTouchTargets trim l
  = {| total := length l;
       compliant := length (filter valid l);
       issues := map (issueOf trim) (filter (fun e => negb (valid e)) l) |}.
Proof. unfold auditTouchTargets. rewrite visit_fold. reflexivity. Qed.

Lemma filter_split_length {A : Type} (f : A -> bool) (l : list A) :
  length (filter f l) + length (filter (fun x => negb (f x)) l) = length l.
Proof.
  induction l as [|x l IH]; [reflexivity|].
  cbn [filter]. destruct (f x); cbn [negb length]; lia.
Qed.

Lemma valid_iff (e : Element) : valid e = true <-> large_enough e.
Proof.
  unfold valid, large_enough, validateTouchTarget. cbn [isValid].
  rewrite Bool.andb_true_iff, !TouchTargetProofs.Qgeb_true. reflexivity.
Qed.

Lemma invalid_recommendations (e : Element) :
  valid e = false ->
  1 <= length (recommendations (validateTouchTarget (node e))) <= 2.
Proof.
  unfold valid, validateTouchTarget. cbn [isValid recommendations].
  destruct (geb (width _) _), (geb (height _) _); cbn; intros H;
    try discriminate H; lia.
Qed.

Lemma or_string_nonempty (a : option string) (b : string) :
  b <> "" -> or_string a b <> "".
Proof.
  intros Hb. unfold or_string. destruct a as [s|]; [|exact Hb].
  destruct (String.eqb_spec s "") as [_|Hs]; assumption.
Qed.

Lemma issueText_nonempty (e : Element) : issueText trim e <> "".
Proof. unfold issueText. apply or_string_nonempty. discriminate. Qed.

Lemma issues_nil_iff (l : list Element) :
  map (issueOf trim) (filter (fun e => negb (valid e)) l) = []
  <-> Forall large_enough l.
Proof.
  induction l as [|e l IH]; [split; [constructor | reflexivity]|].
  cbn [filter]. destruct (valid e) eqn:E; cbn [negb].
  - rewrite IH. split.
    + intros H. constructor; [apply valid_iff, E | exact H].
    + intros H. inversion H; assumption.
  - split; [discriminate|]. intros H. inversion H as [|? ? He _]; subst.
    apply valid_iff in He. congruence.
Qed.

(** X13. [auditTouchTargets] sorts the interactive elements into two parts:
    [compliant] counts the elements that pass [validateTouchTarget], the
    issues are the elements that fail it, each once and in document order,
    and the two add up to [total], the number of elements found. *)
Theorem auditTouchTargets_partition :
  forall interactiveElements : list Element,
    let audit := auditTouchTargets trim interactiveElements in
    total audit = length interactiveElements
    /\ compliant audit = length (filter valid interactiveElements)
    /\ map i_element (issues audit)
       = filter (fun e => negb (valid e)) interactiveElements
    /\ compliant audit + length (issues audit) = total audit.
Proof.
  intros l. cbv zeta. rewrite audit_unfold. cbn [total compliant issues].
  split; [reflexivity|]. split; [reflexivity|]. split.
  - rewrite map_map. cbn [issueOf i_element]. apply map_id.
  - rewrite length_map. apply filter_split_length.
Qed.

(** X14. Every issue of an audit is about an element that fails the
    validation; it carries that element's tag name, the one or two
    recommendations of [validateTouchTarget], and a text that is never
    empty (the trimmed text content, else the [aria-label], else
    ["No text"]). *)
Theorem auditTouchTargets_issue :
  forall (interactiveElements : list Element) (issue : Issue),
    In issue (issues (auditTouchTargets trim interactiveElements)) ->
    In (i_element issue) interactiveElements
    /\ valid (i_element issue) = false
    /\ i_tagName issue = tagName (i_element issue)
    /\ i_issues issue
       = recommendations (validateTouchTarget (node (i_element issue)))
    /\ 1 <= length (i_issues issue) <= 2
    /\ i_text issue <> "".
Proof.
  intros l issue. rewrite audit_unfold. cbn [issues]. intros Hin.
  apply in_map_iff in Hin. destruct Hin as [e [<- He]].
  apply filter_In in He. destruct He as [Hin Hv].
  apply Bool.negb_true_iff in Hv. cbn [issueOf i_element i_tagName i_issues i_text].
  split; [exact Hin|]. split; [exact Hv|]. split; [reflexivity|].
  split; [reflexivity|]. split; [apply invalid_recommendations, Hv|].
  apply issueText_nonempty.
Qed.

(** X15. An audit reports no issue exactly when every interactive element
    measures at least 44 pixels on both sides, and then all of them are
    counted as compliant; an empty page is such a page. *)
Theorem auditTouchTargets_clean :
  forall interactiveElements : list Element,
    let audit := auditTouchTargets trim interactiveElements in
    (issues audit = [] <-> Forall large_enough interactiveElements)
    /\ (issues audit = [] -> compliant audit = total audit)
    /\ auditTouchTargets trim [] = {| total := 0; compliant := 0; issues := [] |}.
Proof.
  intros l. cbv zeta. rewrite audit_unfold. cbn [total compliant issues].
  split; [apply issues_nil_iff|]. split; [|reflexivity].
  intros Hnil. pose proof (filter_split_length valid l) as Hlen.
  apply (f_equal (@length Issue)) in Hnil. rewrite length_map in Hnil.
  cbn [length] in Hnil. lia.
Qed.

(** X16. [generateMobileA11yReport] gives no recommendation exactly when
    every interactive element measures at least 44 pixels on both sides and
    the viewport is either at least 768 pixels wide, or at least 320 pixels
    wide on a touch device; it never gives more than three. *)
Theorem generateMobileA11yReport_recommendations :
  forall (window : Window) (interactiveElements : list Element),
    let report := generateMobileA11yReport trim window interactiveElements in
    (r_recommendations report = []
     <-> Forall large_enough interactiveElements
         /\ ((768 <= innerWidth window)%Z
             \/ ((320 <= innerWidth window)%Z /\ isTouchDevice window = true)))
    /\ length (r_recommendations report) <= 3
    /\ touchTargets report = auditTouchTargets trim interactiveElements.
Proof.
  intros window l. cbv zeta.
  assert (Hclean : length (issues (auditTouchTargets trim l)) = 0
                   <-> Forall large_enough l).
  { rewrite audit_unfold. cbn [issues]. rewrite <- issues_nil_iff.
    apply length_zero_iff_nil. }
  unfold generateMobileA11yReport.
  cbn [r_recommendations touchTargets isMobile isTouch v_width].
  unfold isMobileViewport.
  set (n := length (issues (auditTouchTargets trim l))) in *.
  destruct (Nat.ltb_spec 0 n) as [Hn|Hn];
    destruct (Z.ltb_spec (innerWidth window) 768) as [Hm|Hm];
    destruct (isTouchDevice window);
    destruct (Z.ltb_spec (innerWidth window) 320) as [Hw|Hw];
    cbn; (split; [split; [intros H; try discriminate H | intros [H1 H2]]|]);
    try (split; [lia | reflexivity]);
    try (split; [apply Hclean; lia | ]); try lia;
    try (apply Hclean in H1; lia);
    try (right; split; [lia | reflexivity]);
    try (left; lia);
    try (destruct H2 as [H2 | [H2 H3]]; try discriminate; lia);
    try reflexivity.
Qed.

End WithTrim.

End TouchAuditProofs.

Module TouchAuditWitness.

Import TouchTarget.
Import TouchAudit.

Lemma auditTouchTargets_issue_witness :
  let page := [sized "BUTTON" (Some "") 30 50; sized "A" (Some "Home") 48 48] in
  let issue := issueOf (fun s => s) (sized "BUTTON" (Some "") 30 50) in
  In (i_element issue) page
  /\ valid (i_element issue) = false
  /\ i_tagName issue = tagName (i_element issue)
  /\ i_issues issue
     = recommendations (validateTouchTarget (node (i_element issue)))
  /\ 1 <= length (i_issues issue) <= 2
  /\ i_text issue <> "".
Proof.
  apply (TouchAuditProofs.auditTouchTargets_issue (fun s => s)
           [sized "BUTTON" (Some "") 30 50; sized "A" (Some "Home") 48 48]
           (issueOf (fun s => s) (sized "BUTTON" (Some "") 30 50))).
  left. reflexivity.
Defined.

End TouchAuditWitness.

(* ================================================================== *)
(** * Properties of the colour advice *)
(* ================================================================== *)

Module ContrastAdviceProofs.

Import Contrast.
Import ContrastProofs.
Import ContrastAdvice.

Local Open Scope R_scope.

Lemma linearize_0 : linearize 0 = 0.
Proof.
  unfold linearize.
  destruct (Rle_dec (0 / 255) 0.03928) as [_|H]; lra.
Qed.

Lemma luminance_white : getLuminance 255 255 255 = 1.
Proof. unfold getLuminance. rewrite linearize_255. lra. Qed.

Lemma luminance_black : getLuminance 0 0 0 = 0.
Proof. unfold getLuminance. rewrite linearize_0. lra. Qed.

Lemma contrast_with_white (bg : string) (v : rgb) :
  hexToRgb bg = Some v ->
  getContrastRatio "#FFFFFF" bg = Ok (1.05 / (luminance v + 0.05)).
Proof.
  intros Hbg. pose proof (luminance_of_parsed bg v Hbg) as HL.
  assert (Hw : hexToRgb "#FFFFFF" = Some {| r := 255; g := 255; b := 255 |})
    by reflexivity.
  unfold getContrastRatio. rewrite Hw, Hbg. cbn [r g b]. fold (luminance v).
  unfold luminance in HL |- *. rewrite luminance_white.
  rewrite Rmax_left, Rmin_right by lra.
  f_equal. f_equal. lra.
Qed.

Lemma contrast_with_black (bg : string) (v : rgb) :
  hexToRgb bg = Some v ->
  getContrastRatio "#000000" bg = Ok ((luminance v + 0.05) / 0.05).
Proof.
  intros Hbg. pose proof (luminance_of_parsed bg v Hbg) as HL.
  assert (Hk : hexToRgb "#000000" = Some {| r := 0; g := 0; b := 0 |})
    by reflexivity.
  unfold getContrastRatio. rewrite Hk, Hbg. cbn [r g b].
  unfold luminance in HL |- *. rewrite luminance_black.
  rewrite Rmax_right, Rmin_left by lra.
  f_equal. f_equal. lra.
Qed.

Lemma gtb_true (x y : R) : gtb x y = true <-> y < x.
Proof. unfold gtb. destruct (Rlt_dec y x); split; try tauto; discriminate. Qed.

Lemma gtb_false (x y : R) : gtb x y = false <-> x <= y.
Proof.
  unfold gtb. destruct (Rlt_dec y x); split; try discriminate; try lra;
    reflexivity.
Qed.

(** One of white and black always contrasts well: the two ratios multiply
    to 21. *)
Lemma better_of_two (L : R) :
  0 <= L <= 1 ->
  ((L + 0.05) / 0.05 < 1.05 / (L + 0.05) -> 4.5 <= 1.05 / (L + 0.05))
  /\ (1.05 / (L + 0.05) <= (L + 0.05) / 0.05 -> 4.5 <= (L + 0.05) / 0.05).
Proof.
  intros HL.
  set (a := 1.05 / (L + 0.05)). set (b := (L + 0.05) / 0.05).
  assert (Ha : a * (L + 0.05) = 1.05).
  { unfold a, Rdiv. rewrite Rmult_assoc, Rinv_l by lra. lra. }
  assert (Hb : b * 0.05 = L + 0.05).
  { unfold b, Rdiv. rewrite Rmult_assoc, Rinv_l by lra. lra. }
  split; intros H; nra.
Qed.

Lemma recommended_unfold (bg : string) (v : rgb) :
  hexToRgb bg = Some v ->
  getRecommendedTextColor bg
  = Ok (if gtb (1.05 / (luminance v + 0.05)) ((luminance v + 0.05) / 0.05)
        then "#FFFFFF" else "#000000")%string.
Proof.
  intros Hbg. unfold getRecommendedTextColor.
  rewrite (contrast_with_white bg v Hbg), (contrast_with_black bg v Hbg).
  reflexivity.
Qed.

(** The recommended colour, and its ratio of at least 4.5 with the
    background. *)
Lemma recommended_ratio (bg : string) :
  well_formed bg ->
  exists (c : string) (x : R),
    getRecommendedTextColor bg = Ok c
    /\ (c = "#FFFFFF" \/ c = "#000000")%string
    /\ getContrastRatio c bg = Ok x
    /\ 4.5 <= x.
Proof.
  intros W. apply hexToRgb_well_formed in W. destruct W as [v Hbg].
  pose proof (luminance_of_parsed bg v Hbg) as HL. fold (luminance v) in HL.
  destruct (better_of_two (luminance v) HL) as [Hwhite Hblack].
  rewrite (recommended_unfold bg v Hbg).
  destruct (gtb (1.05 / (luminance v + 0.05)) ((luminance v + 0.05) / 0.05))
    eqn:E.
  - apply gtb_true in E.
    exists "#FFFFFF"%string, (1.05 / (luminance v + 0.05)).
    split; [reflexivity|]. split; [left; reflexivity|].
    split; [apply contrast_with_white, Hbg | apply Hwhite, E].
  - apply gtb_false in E.
    exists "#000000"%string, ((luminance v + 0.05) / 0.05).
    split; [reflexivity|]. split; [right; reflexivity|].
    split; [apply contrast_with_black, Hbg | apply Hblack, E].
Qed.

(** X17. [getRecommendedTextColor] throws the invalid-format error exactly
    when the background is not a well-formed colour, and otherwise returns
    white or black, written ["#FFFFFF"] and ["#000000"]. *)
Theorem getRecommendedTextColor_result :
  forall backgroundColor : string,
    (getRecommendedTextColor backgroundColor
     = Throw "Invalid hex color format"
     <-> ~ well_formed backgroundColor)
    /\ (well_formed backgroundColor
        <-> getRecommendedTextColor backgroundColor = Ok "#FFFFFF"%string
            \/ getRecommendedTextColor backgroundColor = Ok "#000000"%string).
Proof.
  intros bg.
  destruct (hexToRgb bg) as [v|] eqn:Hbg.
  - assert (W : well_formed bg) by (apply hexToRgb_well_formed; eauto).
    rewrite (recommended_unfold bg v Hbg).
    split; split; try discriminate; try tauto.
    intros _.
    destruct (gtb _ _); [left | right]; reflexivity.
  - assert (W : ~ well_formed bg) by (apply hexToRgb_none, Hbg).
    assert (E : getRecommendedTextColor bg = Throw "Invalid hex color format").
    { unfold getRecommendedTextColor, getContrastRatio. rewrite Hbg.
      reflexivity. }
    rewrite E. split; split; try tauto; intros [H|H]; discriminate H.
Qed.

(** X18. On a well-formed background the colour [getRecommendedTextColor]
    returns has a contrast ratio of at least 4.5 with that background, so
    [meetsWCAGAA] passes it for normal and for large text and never rates it
    [Fail]. *)
Theorem getRecommendedTextColor_passes :
  forall (backgroundColor : string) (isLargeText : bool),
    well_formed backgroundColor ->
    exists (c : string) (x : R) (res : ContrastResult),
      getRecommendedTextColor backgroundColor = Ok c
      /\ getContrastRatio c backgroundColor = Ok x
      /\ 4.5 <= x
      /\ meetsWCAGAA c backgroundColor isLargeText = Ok res
      /\ passes res = true
      /\ level res <> Fail.
Proof.
  intros bg isLargeText W.
  destruct (recommended_ratio bg W) as (c & x & Hc & _ & Hx & Hge).
  exists c, x. unfold meetsWCAGAA. rewrite Hx. eexists.
  split; [exact Hc|]. split; [reflexivity|]. split; [exact Hge|].
  split; [reflexivity|]. cbn [passes level].
  unfold requiredRatio, requiredRatioAAA.
  destruct isLargeText.
  - assert (E1 : geb x 3 = true) by (apply geb_true; lra).
    assert (E2 : geb x 4.5 = true) by (apply geb_true; lra).
    rewrite E1, E2. split; [reflexivity | discriminate].
  - assert (E1 : geb x 4.5 = true) by (apply geb_true; lra).
    rewrite E1. split; [reflexivity|]. destruct (geb x 7); discriminate.
Qed.

Lemma getRecommendedTextColor_passes_witness :
  exists (c : string) (x : R) (res : ContrastResult),
    getRecommendedTextColor "#767676" = Ok c
    /\ getContrastRatio c "#767676" = Ok x
    /\ 4.5 <= x
    /\ meetsWCAGAA c "#767676" false = Ok res
    /\ passes res = true
    /\ level res <> Fail.
Proof.
  apply (getRecommendedTextColor_passes "#767676" false).
  exact well_formed_767676.
Defined.

Lemma contrast_range (fg bg : string) (x : R) :
  getContrastRatio fg bg = Ok x -> 1 <= x <= 21.
Proof.
  unfold getContrastRatio.
  destruct (hexToRgb fg) as [vf|] eqn:Ef; [|discriminate].
  destruct (hexToRgb bg) as [vb|] eqn:Eb; [|discriminate].
  intros H. injection H as <-.
  apply ratio_range; eapply luminance_of_parsed; eassumption.
Qed.

Lemma meetsWCAGAA_unfold (fg bg : string) (isLargeText : bool) (x : R) :
  getContrastRatio fg bg = Ok x ->
  meetsWCAGAA fg bg isLargeText
  = Ok {| passes := geb x (requiredRatio isLargeText);
          ratio := Math_round (x * 100) / 100;
          required := requiredRatio isLargeText;
          level := if geb x (requiredRatioAAA isLargeText) then AAA
                   else if geb x (requiredRatio isLargeText) then AA
                   else Fail |}.
Proof. intros H. unfold meetsWCAGAA. rewrite H. reflexivity. Qed.

Lemma meetsWCAGAA_inv (fg bg : string) (isLargeText : bool)
  (res : ContrastResult) :
  meetsWCAGAA fg bg isLargeText = Ok res ->
  exists x, getContrastRatio fg bg = Ok x.
Proof.
  unfold meetsWCAGAA. destruct (getContrastRatio fg bg) as [x|e];
    [eauto | discriminate].
Qed.

Lemma validate_unfold (fg bg : string) (context : Context) (x : R) (v : rgb) :
  getContrastRatio fg bg = Ok x -> hexToRgb bg = Some v ->
  validateColorCombination fg bg context
  = Ok {| isAccessible := geb x (requiredRatio (is_large context));
          contrastRatio := Math_round (x * 100) / 100;
          recommendation :=
            if geb x (requiredRatio (is_large context)) then None
            else Some (advice
                         (if gtb (1.05 / (luminance v + 0.05))
                                 ((luminance v + 0.05) / 0.05)
                          then "#FFFFFF" else "#000000")%string bg) |}.
Proof.
  intros Hx Hbg. unfold validateColorCombination.
  rewrite (meetsWCAGAA_unfold fg bg _ x Hx). cbn [bind passes ratio].
  destruct (geb x (requiredRatio (is_large context))); cbn [negb bind].
  - reflexivity.
  - rewrite (recommended_unfold bg v Hbg). reflexivity.
Qed.

(** X19. [validateColorCombination] returns a verdict exactly on two
    well-formed colours and otherwise throws the invalid-format error.  The
    combination is accessible exactly when the unrounded ratio reaches 3 in
    the ['large'] context and 4.5 in the ['normal'] and ['ui'] contexts; a
    recommendation is given exactly when it is not accessible, and it then
    advises white or black text on the given background. *)
Theorem validateColorCombination_verdict :
  forall (foreground background : string) (context : Context),
    (well_formed foreground /\ well_formed background
     <-> exists comb,
           validateColorCombination foreground background context = Ok comb)
    /\ (forall e,
          validateColorCombination foreground background context = Throw e ->
          e = "Invalid hex color format"%string)
    /\ (forall comb x,
          validateColorCombination foreground background context = Ok comb ->
          getContrastRatio foreground background = Ok x ->
          (isAccessible comb = true
           <-> match context with large => 3 | normal | ui => 4.5 end <= x)
          /\ (recommendation comb = None <-> isAccessible comb = true)
          /\ (isAccessible comb = false ->
              recommendation comb = Some (advice "#FFFFFF" background)
              \/ recommendation comb = Some (advice "#000000" background))).
Proof.
  intros fg bg context.
  destruct (hexToRgb fg) as [vf|] eqn:Ef; [destruct (hexToRgb bg) as [vb|] eqn:Eb|].
  - assert (Wf : well_formed fg) by (apply hexToRgb_well_formed; eauto).
    assert (Wb : well_formed bg) by (apply hexToRgb_well_formed; eauto).
    destruct (getContrastRatio_defined fg bg Wf Wb) as [x Hx].
    rewrite (validate_unfold fg bg context x vb Hx Eb).
    split; [split; eauto|]. split; [discriminate|].
    intros comb x' H Hx'. injection H as <-.
    assert (x' = x) by congruence. subst x'.
    cbn [isAccessible recommendation].
    assert (Hreq : requiredRatio (is_large context)
                   = match context with large => 3 | normal | ui => 4.5 end)
      by (destruct context; reflexivity).
    rewrite <- Hreq.
    destruct (geb x (requiredRatio (is_large context))) eqn:E.
    + apply geb_true in E. repeat split; intros; try discriminate; auto.
    + apply geb_false in E. repeat split; intros; try discriminate; try lra.
      destruct (gtb _ _); [left | right]; reflexivity.
  - assert (Wb : ~ well_formed bg) by (apply hexToRgb_none, Eb).
    assert (E : validateColorCombination fg bg context
                = Throw "Invalid hex color format").
    { unfold validateColorCombination, meetsWCAGAA, getContrastRatio.
      rewrite Ef, Eb. reflexivity. }
    rewrite E. split; [split; [tauto | intros [c Hc]; discriminate Hc]|].
    split; [intros e H; injection H as <-; reflexivity | discriminate].
  - assert (Wf : ~ well_formed fg) by (apply hexToRgb_none, Ef).
    assert (E : validateColorCombination fg bg context
                = Throw "Invalid hex color format").
    { unfold validateColorCombination, meetsWCAGAA, getContrastRatio.
      rewrite Ef. reflexivity. }
    rewrite E. split; [split; [tauto | intros [c Hc]; discriminate Hc]|].
    split; [intros e H; injection H as <-; reflexivity | discriminate].
Qed.

(** X20. Following the advice settles the matter: on a well-formed
    background, the colour [getRecommendedTextColor] returns is judged
    accessible by [validateColorCombination] in every context, with no
    further recommendation. *)
Theorem recommended_color_is_accessible :
  forall (background : string) (context : Context),
    well_formed background ->
    exists (c : string) (comb : Combination),
      getRecommendedTextColor background = Ok c
      /\ validateColorCombination c background context = Ok comb
      /\ isAccessible comb = true
      /\ recommendation comb = None.
Proof.
  intros bg context W.
  destruct (recommended_ratio bg W) as (c & x & Hc & _ & Hx & Hge).
  apply hexToRgb_well_formed in W. destruct W as [v Hbg].
  exists c. rewrite (validate_unfold c bg context x v Hx Hbg).
  eexists. split; [exact Hc|]. split; [reflexivity|].
  cbn [isAccessible recommendation].
  assert (E : geb x (requiredRatio (is_large context)) = true).
  { apply geb_true. unfold requiredRatio. destruct (is_large context); lra. }
  rewrite E. split; reflexivity.
Qed.

Lemma recommended_color_is_accessible_witness :
  exists (c : string) (comb : Combination),
    getRecommendedTextColor "#767676" = Ok c
    /\ validateColorCombination c "#767676" ui = Ok comb
    /\ isAccessible comb = true
    /\ recommendation comb = None.
Proof.
  apply (recommended_color_is_accessible "#767676" ui).
  exact well_formed_767676.
Defined.

(** X21. The two verdicts of a [ContrastResult] agree: [passes] is true
    exactly when the level is [AA] or [AAA], and false exactly when it is
    [Fail]. *)
Theorem meetsWCAGAA_passes_level :
  forall (foreground background : string) (isLargeText : bool)
         (res : ContrastResult),
    meetsWCAGAA foreground background isLargeText = Ok res ->
    (passes res = true <-> level res = AA \/ level res = AAA)
    /\ (passes res = false <-> level res = Fail).
Proof.
  intros fg bg isLargeText res H.
  destruct (meetsWCAGAA_inv _ _ _ _ H) as [x Hx].
  rewrite (meetsWCAGAA_unfold _ _ _ x Hx) in H. injection H as <-.
  cbn [passes level]. unfold requiredRatio, requiredRatioAAA.
  destruct isLargeText.
  - destruct (geb x 4.5) eqn:E1; [apply geb_true in E1 | apply geb_false in E1];
      destruct (geb x 3) eqn:E2;
      [apply geb_true in E2 | apply geb_false in E2
      | apply geb_true in E2 | apply geb_false in E2];
      try lra; repeat split; intros; try discriminate; auto;
      try (destruct H; discriminate).
  - destruct (geb x 7) eqn:E1; [apply geb_true in E1 | apply geb_false in E1];
      destruct (geb x 4.5) eqn:E2;
      [apply geb_true in E2 | apply geb_false in E2
      | apply geb_true in E2 | apply geb_false in E2];
      try lra; repeat split; intros; try discriminate; auto;
      try (destruct H; discriminate).
Qed.

Lemma meetsWCAGAA_white_767676 :
  exists res, meetsWCAGAA "#FFFFFF" "#767676" false = Ok res.
Proof.
  destruct (getContrastRatio_defined "#FFFFFF" "#767676"
              well_formed_white well_formed_767676) as [x Hx].
  rewrite (meetsWCAGAA_unfold _ _ _ x Hx). eauto.
Qed.

Lemma meetsWCAGAA_passes_level_witness :
  exists res,
    meetsWCAGAA "#FFFFFF" "#767676" false = Ok res
    /\ (passes res = true <-> level res = AA \/ level res = AAA)
    /\ (passes res = false <-> level res = Fail).
Proof.
  destruct meetsWCAGAA_white_767676 as [res H].
  exists res. split; [exact H|].
  exact (meetsWCAGAA_passes_level "#FFFFFF" "#767676" false res H).
Defined.

Lemma round_hundredths (x : R) :
  - (0.005) <= Math_round (x * 100) / 100 - x <= 0.005.
Proof.
  unfold Math_round.
  destruct (base_Int_part (x * 100 + 0.5)) as [H1 H2].
  set (n := IZR (Int_part (x * 100 + 0.5))) in *. lra.
Qed.

Lemma round_hundredths_range (x : R) :
  1 <= x <= 21 -> 1 <= Math_round (x * 100) / 100 <= 21.
Proof.
  intros Hx. unfold Math_round.
  destruct (base_Int_part (x * 100 + 0.5)) as [H1 H2].
  set (n := Int_part (x * 100 + 0.5)) in *.
  assert (L : (99 < n)%Z) by (apply lt_IZR; lra).
  assert (U : (n < 2101)%Z) by (apply lt_IZR; lra).
  assert (L' : IZR 100 <= IZR n) by (apply IZR_le; lia).
  assert (U' : IZR n <= IZR 2100) by (apply IZR_le; lia).
  lra.
Qed.

(** X22. The ratio a [ContrastResult] reports is a whole number of
    hundredths within 0.005 of the unrounded ratio, and it stays between 1
    and 21. *)
Theorem meetsWCAGAA_reported_ratio :
  forall (foreground background : string) (isLargeText : bool)
         (res : ContrastResult) (x : R),
    meetsWCAGAA foreground background isLargeText = Ok res ->
    getContrastRatio foreground background = Ok x ->
    Rabs (ratio res - x) <= 0.005
    /\ 1 <= ratio res <= 21
    /\ exists n : Z, ratio res = IZR n / 100.
Proof.
  intros fg bg isLargeText res x H Hx.
  rewrite (meetsWCAGAA_unfold _ _ _ x Hx) in H. injection H as <-.
  cbn [ratio]. split; [|split].
  - apply Rabs_le. apply round_hundredths.
  - apply round_hundredths_range. exact (contrast_range fg bg x Hx).
  - eexists. reflexivity.
Qed.

Lemma meetsWCAGAA_reported_ratio_witness :
  exists res x,
    meetsWCAGAA "#FFFFFF" "#767676" false = Ok res
    /\ getContrastRatio "#FFFFFF" "#767676" = Ok x
    /\ Rabs (ratio res - x) <= 0.005
    /\ 1 <= ratio res <= 21
    /\ exists n : Z, ratio res = IZR n / 100.
Proof.
  destruct meetsWCAGAA_white_767676 as [res H].
  destruct (meetsWCAGAA_inv _ _ _ _ H) as [x Hx].
  exists res, x. split; [exact H|]. split; [exact Hx|].
  exact (meetsWCAGAA_reported_ratio "#FFFFFF" "#767676" false res x H Hx).
Defined.

Lemma round_100 : Math_round (1 * 100) / 100 = 1.
Proof.
  unfold Math_round.
  rewrite <- (Int_part_spec (1 * 100 + 0.5) 100) by lra. lra.
Qed.

(** X23. A colour has a contrast ratio of exactly 1 with itself, in any of
    its spellings, so as text on its own background it fails: [passes] is
    false, the level is [Fail] and the reported ratio is 1, for normal and
    for large text. *)
Theorem same_colour_fails :
  forall (s t : string) (isLargeText : bool),
    well_formed s -> same_spelling s t ->
    getContrastRatio s t = Ok 1
    /\ exists res,
         meetsWCAGAA s t isLargeText = Ok res
         /\ passes res = false /\ level res = Fail /\ ratio res = 1.
Proof.
  intros s t isLargeText W Hst.
  assert (Hx : getContrastRatio s t = Ok 1).
  { pose proof W as W'. apply hexToRgb_well_formed in W'. destruct W' as [v Hv].
    pose proof (luminance_of_parsed s v Hv) as HL.
    unfold getContrastRatio. rewrite <- (hexToRgb_spelling s t Hst), Hv.
    cbv zeta. unfold Rmax, Rmin.
    destruct (Rle_dec _ _); f_equal; unfold Rdiv; apply Rinv_r; lra. }
  split; [exact Hx|].
  rewrite (meetsWCAGAA_unfold s t isLargeText 1 Hx). eexists.
  split; [reflexivity|]. cbn [passes level ratio].
  unfold requiredRatio, requiredRatioAAA.
  assert (E3 : geb 1 3 = false) by (apply geb_false; lra).
  assert (E45 : geb 1 4.5 = false) by (apply geb_false; lra).
  assert (E7 : geb 1 7 = false) by (apply geb_false; lra).
  destruct isLargeText; rewrite ?E3, ?E45, ?E7;
    (split; [reflexivity|]; split; [reflexivity|]; apply round_100).
Qed.

Lemma same_colour_fails_witness :
  getContrastRatio "#1c8282" "1C8282" = Ok 1
  /\ exists res,
       meetsWCAGAA "#1c8282" "1C8282" true = Ok res
       /\ passes res = false /\ level res = Fail /\ ratio res = 1.
Proof.
  apply (same_colour_fails "#1c8282" "1C8282" true).
  - apply hexToRgb_well_formed. eexists. reflexivity.
  - reflexivity.
Defined.

End ContrastAdviceProofs.

(* ================================================================== *)
(** * Further properties of the keyboard-shortcut dispatcher *)
(* ================================================================== *)

Module ShortcutTableProofs.

Import Shortcuts.

Lemma find_all_false {A : Type} (f : A -> bool) (l : list A) :
  Forall (fun x => f x = false) l -> find f l = None.
Proof.
  induction 1 as [|x l Hx _ IH]; [reflexivity|].
  cbn [find]. rewrite Hx. exact IH.
Qed.

Lemma no_match_with_shift (event : KeyboardEvent) (s : KeyboardShortcut) :
  ev_shiftKey event = true -> truthy (shiftKey s) = false ->
  matchesEvent event s = false.
Proof.
  intros He Hs. unfold matchesEvent. rewrite He, Hs.
  apply Bool.andb_false_r.
Qed.

Lemma no_match_with_ctrl_alt (event : KeyboardEvent) (s : KeyboardShortcut) :
  ev_ctrlKey event = true -> ev_altKey event = true ->
  truthy (ctrlKey s) && truthy (altKey s) = false ->
  matchesEvent event s = false.
Proof.
  intros Hc Ha Hs. unfold matchesEvent. rewrite Hc, Ha.
  destruct (truthy (ctrlKey s)), (truthy (altKey s)); try discriminate Hs;
    cbn; rewrite ?Bool.andb_false_r; reflexivity.
Qed.

Lemma pass_when_none_matches (event : KeyboardEvent)
  (bindings : list KeyboardShortcut) :
  Forall (fun s => matchesEvent event s = false) bindings ->
  handleKeyDown true bindings event = passThrough.
Proof.
  intros H. unfold handleKeyDown. cbn [negb].
  rewrite (find_all_false _ _ H).
  destruct (_ || _ || _); reflexivity.
Qed.

(** X24. None of the bindings of the hook asks for Shift, and none asks for
    Ctrl and Alt together: a key event with Shift held, or with both Ctrl
    and Alt held, is never dispatched by the hook and goes on untouched,
    whatever the key and the target; neither is any event while the hook is
    disabled. *)
Theorem hook_ignores_shift :
  forall event : KeyboardEvent,
    (ev_shiftKey event = true ->
     handleKeyDown true shortcuts event = passThrough)
    /\ (ev_ctrlKey event = true -> ev_altKey event = true ->
        handleKeyDown true shortcuts event = passThrough)
    /\ (forall bindings, handleKeyDown false bindings event = passThrough).
Proof.
  intros event. split; [|split].
  - intros H. apply pass_when_none_matches. unfold shortcuts.
    repeat (constructor; [apply no_match_with_shift; [exact H | reflexivity]|]).
    constructor.
  - intros Hc Ha. apply pass_when_none_matches. unfold shortcuts.
    repeat (constructor;
            [apply no_match_with_ctrl_alt; [exact Hc | exact Ha | reflexivity]|]).
    constructor.
  - reflexivity.
Qed.

End ShortcutTableProofs.
